(** * SveltyCMS: the collection compile / cache / serve pipeline

    A shallow embedding of
      - [src/routes/api/collectionCompile/compile.ts]   (module [Compile]),
      - [src/routes/api/collectionCompile/+server.ts]   (module [CollectionCompile]),
      - [src/routes/api/collections/+server.ts]         (module [Collections]),
      - [src/routes/api/categories/+server.ts]          (module [Categories]),
    followed by the properties of the specification that concern them.

    Conventions.
      - A JavaScript string is modelled by the bytes of its UTF-8 encoding
        ([string]); files hold well-formed UTF-8, so reading a file with the
        ['utf-8'] option and hashing the resulting string sees the same bytes
        as hashing the raw file.
      - A promise that rejects, or a [throw], is the [Err] branch of [result].
      - Module-level [let] variables and the file system are threaded
        explicitly through the functions that read or write them. *)

From stdpp Require Import gmap strings list pretty.
From Stdlib Require Import ZArith String Ascii Lia.

Set Warnings "-register-all".

Local Open Scope string_scope.
Local Open Scope list_scope.
Local Open Scope Z_scope.

(** ** Results of fallible code *)

Inductive result (E A : Type) : Type :=
| Ok (a : A)
| Err (e : E).
Arguments Ok {E A} a.
Arguments Err {E A} e.

Definition bind {E A B} (r : result E A) (k : A -> result E B) : result E B :=
  match r with
  | Ok a => k a
  | Err e => Err e
  end.

Notation "'try!' x := r 'in' k" := (bind r (fun x => k))
  (at level 10, x name, r at level 100, k at level 200).

(** ** JavaScript string primitives *)

Module JsString.

Definition LF : ascii := "010"%char.
Definition CR : ascii := "013"%char.

Definition code (c : ascii) : Z := Z.of_nat (nat_of_ascii c).

Fixpoint starts_with (p s : string) : bool :=
  match p, s with
  | EmptyString, _ => true
  | String a p', String b s' => if Ascii.eqb a b then starts_with p' s' else false
  | String _ _, EmptyString => false
  end.

(** [s.slice(n)] *)
Fixpoint slice_from (n : nat) (s : string) : string :=
  match n, s with
  | O, _ => s
  | S k, String _ s' => slice_from k s'
  | S _, EmptyString => EmptyString
  end.

(** [s.split('\n')[0]]: the text before the first line feed. *)
Fixpoint first_line (s : string) : string :=
  match s with
  | EmptyString => EmptyString
  | String c s' => if Ascii.eqb c LF then EmptyString else String c (first_line s')
  end.

(** [s.replace(pat, rep)] with a string pattern: the first occurrence only. *)
Fixpoint replace_first (pat rep s : string) : string :=
  if starts_with pat s then rep +:+ slice_from (String.length pat) s
  else match s with
       | EmptyString => EmptyString
       | String c s' => String c (replace_first pat rep s')
       end.

(** [s.endsWith(suffix)] *)
Definition ends_with (suffix s : string) : bool :=
  let n := String.length s in
  let k := String.length suffix in
  (k <=? n)%nat && String.eqb (slice_from (n - k) s) suffix.

(** [\w] of a regular expression without the [u] flag *)
Definition is_word (c : ascii) : bool :=
  let n := code c in
  ((48 <=? n) && (n <=? 57)) || ((65 <=? n) && (n <=? 90))
  || ((97 <=? n) && (n <=? 122)) || (n =? 95).

Definition is_word_opt (o : option ascii) : bool :=
  match o with
  | Some c => is_word c
  | None => false
  end.

Definition head (s : string) : option ascii :=
  match s with
  | EmptyString => None
  | String c _ => Some c
  end.

(** Length in bytes of the line terminator at the head of [s], if any:
    LF, CR, U+2028 and U+2029 are what [.] refuses to match. *)
Definition line_terminator (s : string) : option nat :=
  match s with
  | String c s' =>
      if Ascii.eqb c LF || Ascii.eqb c CR then Some 1%nat
      else match s' with
           | String d (String e _) =>
               if (code c =? 226) && (code d =? 128) && ((code e =? 168) || (code e =? 169))
               then Some 3%nat else None
           | _ => None
           end
  | EmptyString => None
  end.

End JsString.

(** ** [crypto.createHash('md5').update(content).digest('hex')]

    The Node.js built-in, written out after RFC 1321 on 32-bit words held
    in [Z] with the wrap-around explicit. *)

Module MD5.

Definition add32 (x y : Z) : Z := (x + y) mod 2 ^ 32.
Definition not32 (x : Z) : Z := Z.lxor x 0xffffffff.
Definition rotl32 (x c : Z) : Z :=
  Z.lor (Z.shiftl x c mod 2 ^ 32) (Z.shiftr x (32 - c)).

Definition shifts : list Z :=
  [ 7; 12; 17; 22; 7; 12; 17; 22; 7; 12; 17; 22; 7; 12; 17; 22;
    5; 9; 14; 20; 5; 9; 14; 20; 5; 9; 14; 20; 5; 9; 14; 20;
    4; 11; 16; 23; 4; 11; 16; 23; 4; 11; 16; 23; 4; 11; 16; 23;
    6; 10; 15; 21; 6; 10; 15; 21; 6; 10; 15; 21; 6; 10; 15; 21 ].

Definition sines : list Z :=
  [ 0xd76aa478; 0xe8c7b756; 0x242070db; 0xc1bdceee;
    0xf57c0faf; 0x4787c62a; 0xa8304613; 0xfd469501;
    0x698098d8; 0x8b44f7af; 0xffff5bb1; 0x895cd7be;
    0x6b901122; 0xfd987193; 0xa679438e; 0x49b40821;
    0xf61e2562; 0xc040b340; 0x265e5a51; 0xe9b6c7aa;
    0xd62f105d; 0x02441453; 0xd8a1e681; 0xe7d3fbc8;
    0x21e1cde6; 0xc33707d6; 0xf4d50d87; 0x455a14ed;
    0xa9e3e905; 0xfcefa3f8; 0x676f02d9; 0x8d2a4c8a;
    0xfffa3942; 0x8771f681; 0x6d9d6122; 0xfde5380c;
    0xa4beea44; 0x4bdecfa9; 0xf6bb4b60; 0xbebfbc70;
    0x289b7ec6; 0xeaa127fa; 0xd4ef3085; 0x04881d05;
    0xd9d4d039; 0xe6db99e5; 0x1fa27cf8; 0xc4ac5665;
    0xf4292244; 0x432aff97; 0xab9423a7; 0xfc93a039;
    0x655b59c3; 0x8f0ccc92; 0xffeff47d; 0x85845dd1;
    0x6fa87e4f; 0xfe2ce6e0; 0xa3014314; 0x4e0811a1;
    0xf7537e82; 0xbd3af235; 0x2ad7d2bb; 0xeb86d391 ].

Definition at_index (l : list Z) (i : Z) : Z := nth (Z.to_nat i) l 0.

(** [n] bytes of [x], least significant first *)
Fixpoint le_bytes (n : nat) (x : Z) : list Z :=
  match n with
  | O => []
  | S k => x mod 256 :: le_bytes k (x / 256)
  end.

Fixpoint le_word (bs : list Z) : Z :=
  match bs with
  | [] => 0
  | b :: bs' => b + 256 * le_word bs'
  end.

Definition pad (msg : list Z) : list Z :=
  let len := Z.of_nat (List.length msg) in
  msg ++ [128] ++ repeat 0 (Z.to_nat ((55 - len) mod 64))
      ++ le_bytes 8 ((8 * len) mod 2 ^ 64).

Fixpoint groups (fuel n : nat) (l : list Z) : list (list Z) :=
  match fuel with
  | O => []
  | S f =>
      match l with
      | [] => []
      | _ => take n l :: groups f n (drop n l)
      end
  end.

Definition words_of_block (block : list Z) : list Z :=
  map le_word (groups 16 4 block).

Definition step (M : list Z) (st : Z * Z * Z * Z) (i : Z) : Z * Z * Z * Z :=
  let '(a, b, c, d) := st in
  let '(f, g) :=
    if i <? 16 then (Z.lor (Z.land b c) (Z.land (not32 b) d), i)
    else if i <? 32 then (Z.lor (Z.land d b) (Z.land (not32 d) c), (5 * i + 1) mod 16)
    else if i <? 48 then (Z.lxor (Z.lxor b c) d, (3 * i + 5) mod 16)
    else (Z.lxor c (Z.lor b (not32 d)), (7 * i) mod 16) in
  let f' := (f + a + at_index sines i + at_index M g) mod 2 ^ 32 in
  (d, add32 b (rotl32 f' (at_index shifts i)), b, c).

Definition process_block (st : Z * Z * Z * Z) (block : list Z) : Z * Z * Z * Z :=
  let '(a0, b0, c0, d0) := st in
  let '(a, b, c, d) := fold_left (step (words_of_block block)) (seqZ 0 64) st in
  (add32 a0 a, add32 b0 b, add32 c0 c, add32 d0 d).

Definition digest (msg : list Z) : list Z :=
  let p := pad msg in
  let '(a, b, c, d) :=
    fold_left process_block (groups (List.length p) 64 p)
              (0x67452301, 0xefcdab89, 0x98badcfe, 0x10325476) in
  le_bytes 4 a ++ le_bytes 4 b ++ le_bytes 4 c ++ le_bytes 4 d.

Definition hex_chars : list ascii :=
  list_ascii_of_string "0123456789abcdef".

Definition hex_digit (n : Z) : ascii := nth (Z.to_nat n) hex_chars "0"%char.

Fixpoint hex (bs : list Z) : string :=
  match bs with
  | [] => EmptyString
  | b :: bs' => String (hex_digit (b / 16)) (String (hex_digit (b mod 16)) (hex bs'))
  end.

Definition bytes_of_string (s : string) : list Z :=
  map JsString.code (list_ascii_of_string s).

Definition md5 (s : string) : string := hex (digest (bytes_of_string s)).

End MD5.


(** ** JavaScript values that JSON can carry *)

Module Js.
Import JsString.

(** A number [JNum m e] is the decimal [m * 10 ^ e]. *)
Inductive value :=
| JNull
| JBool (b : bool)
| JNum (m e : Z)
| JStr (s : string)
| JArr (items : list value)
| JObj (props : list (string * value)).

(** [typeof v === 'object' && v !== null] *)
Definition is_object (v : value) : bool :=
  match v with
  | JArr _ | JObj _ => true
  | _ => false
  end.

(** [if (v)] *)
Definition truthy (v : value) : bool :=
  match v with
  | JNull => false
  | JBool b => b
  | JNum m _ => negb (m =? 0)
  | JStr s => negb (String.eqb s "")
  | JArr _ | JObj _ => true
  end.

Definition num_eqb (m1 e1 m2 e2 : Z) : bool :=
  let k := Z.min e1 e2 in
  m1 * 10 ^ (e1 - k) =? m2 * 10 ^ (e2 - k).

(** [a === b] where [b] was parsed from a request of its own, so that an
    object or an array on either side is a different object from the other
    side. *)
Definition strict_equal (a b : value) : bool :=
  match a, b with
  | JNull, JNull => true
  | JBool x, JBool y => Bool.eqb x y
  | JNum m1 e1, JNum m2 e2 => num_eqb m1 e1 m2 e2
  | JStr x, JStr y => String.eqb x y
  | _, _ => false
  end.

(** *** Objects as lists of own properties in enumeration order *)

Definition is_digit (c : ascii) : bool := (48 <=? code c) && (code c <=? 57).

Fixpoint digits_value (acc : Z) (s : string) : option Z :=
  match s with
  | EmptyString => Some acc
  | String c s' =>
      if is_digit c then digits_value (10 * acc + (code c - 48)) s' else None
  end.

(** The array index a property key spells, if it is one: a canonical
    decimal below [2 ^ 32 - 1]. *)
Definition array_index (k : string) : option Z :=
  match k with
  | EmptyString => None
  | String c rest =>
      if Ascii.eqb c "0"%char && negb (String.eqb rest "") then None
      else
        match digits_value 0 k with
        | Some n => if n <? 2 ^ 32 - 1 then Some n else None
        | None => None
        end
  end.

(** [o[k]], [None] being [undefined] *)
Fixpoint get (k : string) (props : list (string * value)) : option value :=
  match props with
  | [] => None
  | (k', v) :: rest => if String.eqb k k' then Some v else get k rest
  end.

Fixpoint has (k : string) (props : list (string * value)) : bool :=
  match props with
  | [] => false
  | (k', _) :: rest => String.eqb k k' || has k rest
  end.

Fixpoint replace (k : string) (v : value) (props : list (string * value))
  : list (string * value) :=
  match props with
  | [] => []
  | (k', v') :: rest =>
      if String.eqb k k' then (k', v) :: rest else (k', v') :: replace k v rest
  end.

(** A new index key goes before the first key that is not an index or is a
    larger one. *)
Fixpoint insert_index (n : Z) (k : string) (v : value) (props : list (string * value))
  : list (string * value) :=
  match props with
  | [] => [(k, v)]
  | (k', v') :: rest =>
      match array_index k' with
      | Some n' =>
          if n <? n' then (k, v) :: props else (k', v') :: insert_index n k v rest
      | None => (k, v) :: props
      end
  end.

(** [o[k] = v] on an ordinary object: an existing property keeps its
    place, a new one is enumerated after the older ones, array indices
    first and in ascending order. *)
Definition set (k : string) (v : value) (props : list (string * value))
  : list (string * value) :=
  if has k props then replace k v props
  else
    match array_index k with
    | Some n => insert_index n k v props
    | None => props ++ [(k, v)]
    end.

(** [Object.assign(target, source)] for plain data objects *)
Definition assign (target source : list (string * value)) : list (string * value) :=
  fold_left (fun t kv => set kv.1 kv.2 t) source target.

(** *** [JSON.parse]

    The grammar of ECMA-404 read one byte at a time by a pushdown machine:
    [frame]s are the arrays and objects still open, [lex] is what the next
    byte is expected to continue.  [None] is a [SyntaxError]. *)

Definition byte (n : Z) : ascii := ascii_of_nat (Z.to_nat n).

(** UTF-8 of a code point; a lone surrogate takes the three-byte form. *)
Definition utf8 (cp : Z) : list ascii :=
  if cp <? 0x80 then [byte cp]
  else if cp <? 0x800 then [byte (0xC0 + cp / 64); byte (0x80 + cp mod 64)]
  else if cp <? 0x10000 then
    [byte (0xE0 + cp / 4096); byte (0x80 + (cp / 64) mod 64); byte (0x80 + cp mod 64)]
  else
    [byte (0xF0 + cp / 262144); byte (0x80 + (cp / 4096) mod 64);
     byte (0x80 + (cp / 64) mod 64); byte (0x80 + cp mod 64)].

Definition hex_value (c : ascii) : option Z :=
  let n := code c in
  if (48 <=? n) && (n <=? 57) then Some (n - 48)
  else if (65 <=? n) && (n <=? 70) then Some (n - 55)
  else if (97 <=? n) && (n <=? 102) then Some (n - 87)
  else None.

Definition is_json_space (c : ascii) : bool :=
  (code c =? 32) || (code c =? 9) || (code c =? 10) || (code c =? 13).

Inductive frame :=
| FArr (done : list value)
| FObj (done : list (string * value)) (key : string).

Inductive escape :=
| Plain
| Backslash
| Hex (todo : nat) (acc : Z).

Inductive phase :=
| NMinus | NZero | NInt | NDot | NFrac | NE | NESign | NExp.

Record number := {
  negative : bool;
  mantissa : Z;
  fraction : Z;
  exp_negative : bool;
  exponent : Z
}.

Inductive lex :=
| Value (may_close : bool)
| Key (may_close : bool)
| Colon
| After (v : value)
| Str (is_key : bool) (acc : list ascii) (high : option Z) (e : escape)
| Num (p : phase) (n : number)
| Lit (rest : string) (v : value).

Definition number_value (n : number) : value :=
  JNum (if negative n then - mantissa n else mantissa n)
       ((if exp_negative n then - exponent n else exponent n) - fraction n).

Definition accepting (p : phase) : bool :=
  match p with
  | NZero | NInt | NFrac | NExp => true
  | _ => false
  end.

(** The bytes of the string so far, a pending high surrogate written out. *)
Definition flush (acc : list ascii) (high : option Z) : list ascii :=
  match high with
  | Some h => rev (utf8 h) ++ acc
  | None => acc
  end.

(** A [\uXXXX] escape has been read as the code unit [u]. *)
Definition code_unit (acc : list ascii) (high : option Z) (u : Z)
  : list ascii * option Z :=
  match high with
  | Some h =>
      if (0xDC00 <=? u) && (u <=? 0xDFFF)
      then (rev (utf8 (0x10000 + (h - 0xD800) * 1024 + (u - 0xDC00))) ++ acc, None)
      else if (0xD800 <=? u) && (u <=? 0xDBFF)
      then (rev (utf8 h) ++ acc, Some u)
      else (rev (utf8 u) ++ rev (utf8 h) ++ acc, None)
  | None =>
      if (0xD800 <=? u) && (u <=? 0xDBFF) then (acc, Some u)
      else (rev (utf8 u) ++ acc, None)
  end.

Definition simple_escape (c : ascii) : option ascii :=
  let n := code c in
  if (n =? 34) || (n =? 92) || (n =? 47) then Some c
  else if n =? 98 then Some (byte 8)
  else if n =? 102 then Some (byte 12)
  else if n =? 110 then Some (byte 10)
  else if n =? 114 then Some (byte 13)
  else if n =? 116 then Some (byte 9)
  else None.

Definition set_key (k : string) (stack : list frame) : option (list frame) :=
  match stack with
  | FObj done _ :: rest => Some (FObj done k :: rest)
  | _ => None
  end.

Definition step_string (stack : list frame) (is_key : bool) (acc : list ascii)
  (high : option Z) (e : escape) (c : ascii) : option (list frame * lex) :=
  match e with
  | Plain =>
      if code c =? 34 then
        let s := string_of_list_ascii (rev (flush acc high)) in
        if is_key then
          match set_key s stack with
          | Some stack' => Some (stack', Colon)
          | None => None
          end
        else Some (stack, After (JStr s))
      else if code c =? 92 then Some (stack, Str is_key acc high Backslash)
      else if code c <? 32 then None
      else Some (stack, Str is_key (c :: flush acc high) None Plain)
  | Backslash =>
      if code c =? 117 then Some (stack, Str is_key acc high (Hex 4 0))
      else
        match simple_escape c with
        | Some d => Some (stack, Str is_key (d :: flush acc high) None Plain)
        | None => None
        end
  | Hex todo a =>
      match hex_value c, todo with
      | Some h, S O =>
          let '(acc', high') := code_unit acc high (16 * a + h) in
          Some (stack, Str is_key acc' high' Plain)
      | Some h, S k => Some (stack, Str is_key acc high (Hex k (16 * a + h)))
      | _, _ => None
      end
  end.

Definition fresh : number :=
  {| negative := false; mantissa := 0; fraction := 0;
     exp_negative := false; exponent := 0 |}.

Definition step_value (stack : list frame) (may_close : bool) (c : ascii)
  : option (list frame * lex) :=
  let n := code c in
  if is_json_space c then Some (stack, Value may_close)
  else if n =? 123 then Some (FObj [] "" :: stack, Key true)
  else if n =? 91 then Some (FArr [] :: stack, Value true)
  else if n =? 34 then Some (stack, Str false [] None Plain)
  else if n =? 45 then
    Some (stack, Num NMinus {| negative := true; mantissa := 0; fraction := 0;
                               exp_negative := false; exponent := 0 |})
  else if n =? 48 then Some (stack, Num NZero fresh)
  else if is_digit c then
    Some (stack, Num NInt {| negative := false; mantissa := n - 48; fraction := 0;
                             exp_negative := false; exponent := 0 |})
  else if n =? 116 then Some (stack, Lit "rue" (JBool true))
  else if n =? 102 then Some (stack, Lit "alse" (JBool false))
  else if n =? 110 then Some (stack, Lit "ull" JNull)
  else if (n =? 93) && may_close then
    match stack with
    | FArr [] :: rest => Some (rest, After (JArr []))
    | _ => None
    end
  else None.

Definition step_after (stack : list frame) (v : value) (c : ascii)
  : option (list frame * lex) :=
  let n := code c in
  if is_json_space c then Some (stack, After v)
  else
    match stack with
    | FArr done :: rest =>
        if n =? 44 then Some (FArr (v :: done) :: rest, Value false)
        else if n =? 93 then Some (rest, After (JArr (rev (v :: done))))
        else None
    | FObj done k :: rest =>
        if n =? 44 then Some (FObj (set k v done) "" :: rest, Key false)
        else if n =? 125 then Some (rest, After (JObj (set k v done)))
        else None
    | [] => None
    end.

(** A byte that continues the number, or [None] when the number ends (or
    breaks off) before it. *)
Definition step_number (p : phase) (x : number) (c : ascii) : option (phase * number) :=
  let n := code c in
  let d := n - 48 in
  let is_e := (n =? 101) || (n =? 69) in
  let with_mantissa ph frac :=
    Some (ph, {| negative := negative x; mantissa := 10 * mantissa x + d;
                 fraction := fraction x + frac;
                 exp_negative := exp_negative x; exponent := exponent x |}) in
  let with_exponent :=
    Some (NExp, {| negative := negative x; mantissa := mantissa x;
                   fraction := fraction x;
                   exp_negative := exp_negative x; exponent := 10 * exponent x + d |}) in
  match p with
  | NMinus =>
      if n =? 48 then Some (NZero, x)
      else if is_digit c then with_mantissa NInt 0
      else None
  | NZero =>
      if n =? 46 then Some (NDot, x) else if is_e then Some (NE, x) else None
  | NInt =>
      if is_digit c then with_mantissa NInt 0
      else if n =? 46 then Some (NDot, x)
      else if is_e then Some (NE, x)
      else None
  | NDot => if is_digit c then with_mantissa NFrac 1 else None
  | NFrac =>
      if is_digit c then with_mantissa NFrac 1
      else if is_e then Some (NE, x)
      else None
  | NE =>
      if n =? 43 then Some (NESign, x)
      else if n =? 45 then
        Some (NESign, {| negative := negative x; mantissa := mantissa x;
                         fraction := fraction x;
                         exp_negative := true; exponent := exponent x |})
      else if is_digit c then with_exponent
      else None
  | NESign => if is_digit c then with_exponent else None
  | NExp => if is_digit c then with_exponent else None
  end.

Definition step (stack : list frame) (l : lex) (c : ascii) : option (list frame * lex) :=
  match l with
  | Value may_close => step_value stack may_close c
  | Key may_close =>
      if is_json_space c then Some (stack, Key may_close)
      else if code c =? 34 then Some (stack, Str true [] None Plain)
      else if (code c =? 125) && may_close then
        match stack with
        | FObj [] _ :: rest => Some (rest, After (JObj []))
        | _ => None
        end
      else None
  | Colon =>
      if is_json_space c then Some (stack, Colon)
      else if code c =? 58 then Some (stack, Value false)
      else None
  | After v => step_after stack v c
  | Str is_key acc high e => step_string stack is_key acc high e c
  | Num p x =>
      match step_number p x c with
      | Some (p', x') => Some (stack, Num p' x')
      | None => if accepting p then step_after stack (number_value x) c else None
      end
  | Lit rest v =>
      match rest with
      | String x EmptyString => if Ascii.eqb c x then Some (stack, After v) else None
      | String x rest' => if Ascii.eqb c x then Some (stack, Lit rest' v) else None
      | EmptyString => None
      end
  end.

Fixpoint run (stack : list frame) (l : lex) (text : string) : option value :=
  match text with
  | EmptyString =>
      match stack, l with
      | [], After v => Some v
      | [], Num p x => if accepting p then Some (number_value x) else None
      | _, _ => None
      end
  | String c rest =>
      match step stack l c with
      | Some (stack', l') => run stack' l' rest
      | None => None
      end
  end.

Definition JSON_parse (text : string) : option value := run [] (Value false) text.

End Js.

(** ** compile.ts: hash-gated transpilation of collection sources *)

Module Compile.
Import JsString.

(** What [fs.stat] and [fs.readFile] see of a regular file. *)
Record File := { mtime : Z; content : string }.

(** The file system: absolute path of a regular file to the file.  A path
    that is absent makes [fs.stat] and [fs.readFile] reject. *)
Abbreviation FS := (gmap string File).

(** The memo of [transpileCode]: [const cache = new Map<string, string>()]. *)
Abbreviation Cache := (gmap string string).

Record World := { files : FS; cache : Cache }.

Definition EXCLUDED_FILES : list string :=
  ["index.ts"; "types.ts"; "categories.ts"; "CollectionManager.ts"].

Definition nl : string := String LF EmptyString.

Definition enoent (filePath : string) : string :=
  "ENOENT: no such file or directory, open '" +:+ filePath +:+ "'".

Definition readFile (fs : FS) (filePath : string) : result string string :=
  match fs !! filePath with
  | Some f => Ok (content f)
  | None => Err (enoent filePath)
  end.

Definition stat (fs : FS) (filePath : string) : option File := fs !! filePath.

(** [try { ... } catch (err) { throw new Error(prefix + errorMessage) }] *)
Definition rethrow {A} (prefix : string) (r : result string A) : result string A :=
  match r with
  | Ok a => Ok a
  | Err m => Err (prefix +:+ m)
  end.

Definition getContentHash (content : string) : string := MD5.md5 content.

Definition getFileHash (fs : FS) (filePath : string) : result string string :=
  rethrow "Failed to get file hash: "
    (try! content := readFile fs filePath in Ok (MD5.md5 content)).

(** [content.split('\n')[0].replace('// ', '')], or [null] when the read fails *)
Definition getExistingHash (fs : FS) (filePath : string) : option string :=
  match readFile fs filePath with
  | Ok content => Some (replace_first "// " "" (first_line content))
  | Err _ => None
  end.

(** [contentHash !== existingHash] for a string against a string or [null] *)
Definition differs (contentHash : string) (existingHash : option string) : bool :=
  match existingHash with
  | Some h => negb (String.eqb contentHash h)
  | None => true
  end.

Definition shouldRecompile (fs : FS) (tsFilePath jsFilePath : string)
  : result string bool :=
  rethrow "Failed to check if file needs recompilation: "
    (match stat fs jsFilePath with
     | None => Ok true
     | Some jsStats =>
         match stat fs tsFilePath with
         | None => Ok false
         | Some tsStats =>
             try! contentHash := getFileHash fs tsFilePath in
             let existingHash := getExistingHash fs jsFilePath in
             Ok (differs contentHash existingHash || (mtime jsStats <? mtime tsStats))
         end
     end).

(** *** [modifyTranspiledCode]: the three regular-expression rewrites

    Each global [replace] scans left to right; [skip] counts the bytes of
    the current match that are still to be passed over, so that matches
    never overlap and replaced text is not scanned again. *)

(** Bytes consumed by a greedy [.*]: everything up to the next line
    terminator. *)
Fixpoint dot_star (s : string) : nat :=
  match s with
  | EmptyString => O
  | String _ s' =>
      match line_terminator s with
      | Some _ => O
      | None => S (dot_star s')
      end
  end.

Definition IMPORT_WIDGETS : string := "import widgets from ".

(** [.replace(/import widgets from .*\n/g, '')] *)
Fixpoint strip_widget_imports (skip : nat) (s : string) : string :=
  match s with
  | EmptyString => EmptyString
  | String c s' =>
      match skip with
      | S k => strip_widget_imports k s'
      | O =>
          if starts_with IMPORT_WIDGETS s then
            let n := (String.length IMPORT_WIDGETS
                      + dot_star (slice_from (String.length IMPORT_WIDGETS) s))%nat in
            match head (slice_from n s) with
            | Some d =>
                if Ascii.eqb d LF then strip_widget_imports n s'
                else String c (strip_widget_imports O s')
            | None => String c (strip_widget_imports O s')
            end
          else String c (strip_widget_imports O s')
      end
  end.

(** [.replace(/pat/g, rep)] for a literal, non-empty [pat] *)
Fixpoint replace_all (pat rep : string) (skip : nat) (s : string) : string :=
  match s with
  | EmptyString => EmptyString
  | String c s' =>
      match skip with
      | S k => replace_all pat rep k s'
      | O =>
          if starts_with pat s
          then rep +:+ replace_all pat rep (String.length pat - 1) s'
          else String c (replace_all pat rep O s')
      end
  end.

(** Length in bytes of the [\s] character at the head of [s], if any. *)
Definition white_space (s : string) : option nat :=
  match s with
  | String a s1 =>
      let x := code a in
      if (x =? 9) || (x =? 10) || (x =? 11) || (x =? 12) || (x =? 13) || (x =? 32)
      then Some 1%nat
      else
        match s1 with
        | String b s2 =>
            let y := code b in
            if (x =? 194) && (y =? 160) then Some 2%nat
            else
              match s2 with
              | String c _ =>
                  let z := code c in
                  if (x =? 225) && (y =? 154) && (z =? 128) then Some 3%nat
                  else if (x =? 226) && (y =? 128)
                          && (((128 <=? z) && (z <=? 138))
                              || (z =? 168) || (z =? 169) || (z =? 175))
                  then Some 3%nat
                  else if (x =? 226) && (y =? 129) && (z =? 159) then Some 3%nat
                  else if (x =? 227) && (y =? 128) && (z =? 128) then Some 3%nat
                  else if (x =? 239) && (y =? 187) && (z =? 191) then Some 3%nat
                  else None
              | EmptyString => None
              end
        | EmptyString => None
        end
  | EmptyString => None
  end.

(** Bytes consumed by a greedy [\s+] (zero when it does not match). *)
Fixpoint white_space_run (fuel : nat) (s : string) : nat :=
  match fuel with
  | O => O
  | S f =>
      match white_space s with
      | Some n => (n + white_space_run f (slice_from n s))%nat
      | None => O
      end
  end.

Definition is_quote (c : ascii) : bool :=
  (code c =? 34) || (code c =? 39).

(** Offset of the last quote among the first [n] bytes of [s]: where the
    greedy [.*] gives back to, so that the closing quote can match. *)
Fixpoint last_quote (n : nat) (s : string) : option nat :=
  match n, s with
  | S k, String c s' =>
      match last_quote k s' with
      | Some i => Some (S i)
      | None => if is_quote c then Some O else None
      end
  | _, _ => None
  end.

(** The pattern of the third rewrite has two groups: group 1 is a word
    boundary, [from], one or more white-space characters, a quote, a dot
    and a greedy run of any characters but line terminators; group 2 is a
    quote (single or double, in both places).  [import_match prev s] is the
    length of group 1 when the pattern matches at the head of [s], [prev]
    being the byte before it. *)
Definition import_match (prev : option ascii) (s : string) : option nat :=
  if negb (is_word_opt prev) && starts_with "from" s then
    let w := white_space_run (String.length s) (slice_from 4 s) in
    if (0 <? w)%nat then
      match slice_from (4 + w) s with
      | String q (String d r) =>
          if is_quote q && Ascii.eqb d "."%char then
            match last_quote (dot_star r) r with
            | Some i => Some (4 + w + 2 + i)%nat
            | None => None
            end
          else None
      | _ => None
      end
    else None
  else None.

(** The third rewrite, global, with replacement ['$1.js$2']. *)
Fixpoint add_js_extension (prev : option ascii) (skip : nat) (s : string) : string :=
  match s with
  | EmptyString => EmptyString
  | String c s' =>
      match skip with
      | S k => add_js_extension (Some c) k s'
      | O =>
          match import_match prev s with
          | Some n =>
              substring 0 n s +:+ ".js" +:+ substring n 1 s
                +:+ add_js_extension (Some c) n s'
          | None => String c (add_js_extension (Some c) O s')
          end
      end
  end.

Definition modifyTranspiledCode (code : string) : string :=
  add_js_extension None O
    (replace_all "widgets" "globalThis.widgets" O
       (strip_widget_imports O code)).

(** [file.replace(/\.ts$/, '.js')] *)
Definition ts_to_js (file : string) : string :=
  if ends_with ".ts" file
  then substring 0 (String.length file - 3) file +:+ ".js"
  else file.

(** [path.join(folder, file)] for a normalised folder without a trailing
    separator and a normalised relative [file], as the scanner yields them. *)
Definition path_join (folder file : string) : string := folder +:+ "/" +:+ file.

Definition writeCompiledFile (filePath code originalContent : string)
  (now : Z) (fs : FS) : result string FS :=
  rethrow "Failed to write compiled file: "
    (let contentHash := getContentHash originalContent in
     let updatedCode := "// " +:+ contentHash +:+ nl +:+ code in
     Ok (<[filePath := {| mtime := now; content := updatedCode |}]> fs)).

Section Transpiler.

(** [ts.transpileModule(content, {target: ESNext, module: ESNext}).outputText]
    of the TypeScript compiler, which is not part of this repository. *)
Variable transpileModule : string -> string.

(** [if (!code)]: both [undefined] and the empty string count as a miss. *)
Definition transpileCode (content filePath : string) (cache : Cache)
  : string * Cache :=
  match cache !! filePath with
  | Some (String c code) => (String c code, cache)
  | _ =>
      let code := modifyTranspiledCode (transpileModule content) in
      (code, <[filePath := code]> cache)
  end.

(** [now] is the modification time the file system gives a file written by
    this call. *)
Definition compileFile (file srcFolder destFolder : string) (now : Z) (w : World)
  : result string World :=
  let tsFilePath := path_join srcFolder file in
  let jsFilePath := path_join destFolder (ts_to_js file) in
  rethrow ("Failed to compile " +:+ file +:+ ": ")
    (try! stale := shouldRecompile (files w) tsFilePath jsFilePath in
     if negb stale then Ok w
     else
       try! content := readFile (files w) tsFilePath in
       let '(code, cache') := transpileCode content tsFilePath (cache w) in
       try! fs' := writeCompiledFile jsFilePath code content now (files w) in
       Ok {| files := fs'; cache := cache' |}).

End Transpiler.

(** *** The scanner *)

(** An entry of [fs.readdir(dir, {withFileTypes: true})], a directory with
    what reading it yields in turn: its entries, or the message of the
    error.  [Special] is an entry that is neither [isDirectory()] nor
    [isFile()], such as a symbolic link. *)
Inductive dirent :=
| RegularFile (name : string)
| Directory (name : string) (entries : list dirent)
| Unreadable (name : string) (message : string)
| Special (name : string).

(** [EXCLUDED_FILES.includes(entry.name)] *)
Definition excluded (name : string) : bool :=
  existsb (String.eqb name) EXCLUDED_FILES.

(** [path.join(subdir, name)] for the sub-directory of the scan, empty at
    the root, and the name of an entry. *)
Definition relative (subdir name : string) : string :=
  if String.eqb subdir "" then name else subdir +:+ "/" +:+ name.

Definition SCAN_FAILED : string := "Failed to get TypeScript files: ".

(** The [for] loop over the entries: the files of each entry in order, or
    the first error. *)
Definition scan_each (scan : dirent -> result string (list string))
  : list dirent -> result string (list string) :=
  fix loop entries :=
    match entries with
    | [] => Ok []
    | e :: rest =>
        try! subFiles := scan e in
        try! files := loop rest in
        Ok (subFiles ++ files)
    end.

(** What one entry of the directory [subdir] adds to [files]; for a
    directory, the recursive call with its own [try] and [catch]. *)
Fixpoint scan (subdir : string) (e : dirent) : result string (list string) :=
  match e with
  | RegularFile name =>
      Ok (if ends_with ".ts" name && negb (excluded name)
          then [relative subdir name] else [])
  | Directory name entries =>
      rethrow SCAN_FAILED (scan_each (scan (relative subdir name)) entries)
  | Unreadable name message => Err (SCAN_FAILED +:+ message)
  | Special _ => Ok []
  end.

(** [getTypescriptFiles(folder)]; [root] is what reading [folder] yields. *)
Definition getTypescriptFiles (root : result string (list dirent))
  : result string (list string) :=
  match root with
  | Ok entries => rethrow SCAN_FAILED (scan_each (scan "") entries)
  | Err message => Err (SCAN_FAILED +:+ message)
  end.

(** *** The pass *)

(** The text before the last separator, if there is one. *)
Fixpoint before_last_slash (s : string) : option string :=
  match s with
  | EmptyString => None
  | String c rest =>
      match before_last_slash rest with
      | Some d => Some (String c d)
      | None => if Ascii.eqb c "/"%char then Some EmptyString else None
      end
  end.

(** [path.dirname(file)] for a normalised relative path *)
Definition dirname (file : string) : string :=
  match before_last_slash file with
  | None => "."
  | Some EmptyString => "/"
  | Some d => d
  end.

(** The elements of a [Set] built from a list, in insertion order. *)
Fixpoint unique (seen l : list string) : list string :=
  match l with
  | [] => []
  | x :: rest =>
      if existsb (String.eqb x) seen then unique seen rest
      else x :: unique (x :: seen) rest
  end.

(** The directories [createOutputDirectories] makes, in order. *)
Definition outputDirectories (files : list string) (destFolder : string) : list string :=
  map (path_join destFolder)
      (unique [] (List.filter (fun dir => negb (String.eqb dir ".")) (map dirname files))).

Definition COMPILE_FAILED : string := "Collection compilation failed: ".

Section Pass.

Variable transpileModule : string -> string.

(** [clock file] is the modification time given to the artifact of [file]
    if the pass writes it. *)
Variable clock : string -> Z.

(** [Promise.all(files.map((file) => compileFile(file, ...)))]: every file
    is compiled whether or not another fails; the files are taken in the
    order of the list, and the messages of the failures are kept in that
    order. *)
Definition compile_each (files : list string) (srcFolder destFolder : string) (w : World)
  : World * list string :=
  fold_left
    (fun st file =>
       match compileFile transpileModule file srcFolder destFolder (clock file) st.1 with
       | Ok w' => (w', st.2)
       | Err m => (st.1, st.2 ++ [m])
       end)
    files (w, []).

(** [compile({collectionsFolderJS, collectionsFolderTS})], the folders
    after their defaults from the environment; [root] is what reading the
    sources folder yields.  The result is the world after the pass, the
    directories made with [mkdir], and how the promise settles. *)
Definition compile (collectionsFolderJS collectionsFolderTS : option string)
  (root : result string (list dirent)) (w : World)
  : World * list string * result string unit :=
  match collectionsFolderJS, collectionsFolderTS with
  | Some destFolder, Some srcFolder =>
      if String.eqb destFolder "" || String.eqb srcFolder "" then
        (w, [], Err (COMPILE_FAILED +:+ "Collections folders not specified"))
      else
        match getTypescriptFiles root with
        | Err m => (w, [destFolder], Err (COMPILE_FAILED +:+ m))
        | Ok files =>
            let '(w', failures) := compile_each files srcFolder destFolder w in
            (w', destFolder :: outputDirectories files destFolder,
             match failures with
             | [] => Ok tt
             | m :: _ => Err (COMPILE_FAILED +:+ m)
             end)
        end
  | _, _ => (w, [], Err (COMPILE_FAILED +:+ "Collections folders not specified"))
  end.

End Pass.

(** *** Vocabulary of the properties *)

Definition tsPath (srcFolder file : string) : string := path_join srcFolder file.
Definition jsPath (destFolder file : string) : string :=
  path_join destFolder (ts_to_js file).

(** The world [compileFile] leaves when it writes the artifact of [source]. *)
Definition compiled (transpileModule : string -> string)
  (file srcFolder destFolder : string) (now : Z) (source : File) (w : World) : World :=
  let out := transpileCode transpileModule (content source) (tsPath srcFolder file) (cache w) in
  {| files := <[jsPath destFolder file :=
                 {| mtime := now;
                    content := "// " +:+ getContentHash (content source) +:+ nl +:+ out.1 |}]>
              (files w);
     cache := out.2 |}.

(** The test of [shouldRecompile] when the source is there. *)
Definition stale (file srcFolder destFolder : string) (source : File) (w : World) : bool :=
  match files w !! jsPath destFolder file with
  | Some artifact =>
      differs (MD5.md5 (content source)) (getExistingHash (files w) (jsPath destFolder file))
      || (mtime artifact <? mtime source)
  | None => true
  end.

(** The artifact of [file] is there, carries the hash of the source as it
    is, and is not older than the source. *)
Definition fresh (srcFolder destFolder file : string) (fs : FS) : Prop :=
  exists source artifact,
    fs !! tsPath srcFolder file = Some source
    /\ fs !! jsPath destFolder file = Some artifact
    /\ getExistingHash fs (jsPath destFolder file) = Some (MD5.md5 (content source))
    /\ mtime source <= mtime artifact.


(** Somewhere below these entries a directory cannot be read. *)
Inductive blocked : list dirent -> Prop :=
| blocked_here name message rest : blocked (Unreadable name message :: rest)
| blocked_below name entries rest : blocked entries -> blocked (Directory name entries :: rest)
| blocked_later e rest : blocked rest -> blocked (e :: rest).

End Compile.

(** ** collectionCompile/+server.ts: the compilation orchestrator *)

Module CollectionCompile.

Definition COMPILE_COOLDOWN : Z := 60000.

(** [let isCompiling = false; let lastCompileTime = 0;] *)
Record State := { isCompiling : bool; lastCompileTime : Z }.

Definition initial : State := {| isCompiling := false; lastCompileTime := 0 |}.

(** The calls a pass makes out of this module, in order: [compile()] of
    compile.ts (scan, transpile, write) and
    [collectionManager.updateCollections(force)]. *)
Inductive call :=
| CallCompile
| CallUpdateCollections (force : bool).

(** How the two awaited calls settle; [Err m] is a rejection whose
    [errorMessage] is [m]. *)
Record Outcome := {
  compile_outcome : result string unit;
  update_outcome : result string unit
}.

Inductive response :=
| Json (success : bool) (message : string) (timestamp : option Z)
| Fault (status : Z) (message : string).

Definition failed (m : string) : string := "Compilation process failed: " +:+ m.

(** [clock] is what [Date.now()] returns inside [handleCompilation]. *)
Definition handleCompilation (forceUpdate : bool) (clock : Z) (st : State)
  (o : Outcome) : list call * result string unit :=
  if forceUpdate || (COMPILE_COOLDOWN <? clock - lastCompileTime st) then
    match compile_outcome o with
    | Err m => ([CallCompile], Err (failed m))
    | Ok _ =>
        match update_outcome o with
        | Ok _ => ([CallCompile; CallUpdateCollections forceUpdate], Ok tt)
        | Err m => ([CallCompile; CallUpdateCollections forceUpdate], Err (failed m))
        end
    end
  else
    match update_outcome o with
    | Ok _ => ([CallUpdateCollections forceUpdate], Ok tt)
    | Err m => ([CallUpdateCollections forceUpdate], Err (failed m))
    end.

(** A handler runs synchronously up to its [await]: it either answers at
    once or takes the gate and suspends. *)
Inductive entry :=
| Answered (r : response)
| Suspended (st : State).

Definition release (st : State) : State :=
  {| isCompiling := false; lastCompileTime := lastCompileTime st |}.

Definition GET_enter (forceUpdate : bool) (currentTime : Z) (st : State) : entry :=
  if isCompiling st then
    Answered (Json true "Compilation already in progress" None)
  else if negb forceUpdate && (currentTime - lastCompileTime st <? COMPILE_COOLDOWN) then
    Answered (Json true "Compilation skipped due to cooldown" None)
  else
    Suspended {| isCompiling := true; lastCompileTime := currentTime |}.

(** The continuation of [GET] after [await handleCompilation(forceUpdate)]. *)
Definition GET_resume (currentTime : Z) (r : result string unit) (st : State)
  : State * response :=
  match r with
  | Ok _ =>
      (release st,
       Json true "Compilation and collection update completed" (Some currentTime))
  | Err m => (release st, Fault 500 m)
  end.

Definition POST_enter (currentTime : Z) (st : State) : entry :=
  if isCompiling st then
    Answered (Json true "Compilation already in progress" None)
  else
    Suspended {| isCompiling := true; lastCompileTime := currentTime |}.

Definition POST_resume (currentTime : Z) (r : result string unit) (st : State)
  : State * response :=
  match r with
  | Ok _ =>
      (release st,
       Json true "Forced compilation and collection update completed" (Some currentTime))
  | Err m => (release st, Fault 500 m)
  end.

(** A handler run from request to response with nothing in between. *)
Definition GET (forceUpdate : bool) (currentTime clock : Z) (o : Outcome) (st : State)
  : State * list call * response :=
  match GET_enter forceUpdate currentTime st with
  | Answered r => (st, [], r)
  | Suspended st1 =>
      let '(calls, r) := handleCompilation forceUpdate clock st1 o in
      let '(st2, resp) := GET_resume currentTime r st1 in
      (st2, calls, resp)
  end.

Definition POST (currentTime clock : Z) (o : Outcome) (st : State)
  : State * list call * response :=
  match POST_enter currentTime st with
  | Answered r => (st, [], r)
  | Suspended st1 =>
      let '(calls, r) := handleCompilation true clock st1 o in
      let '(st2, resp) := POST_resume currentTime r st1 in
      (st2, calls, resp)
  end.

(** *** Requests arriving while a pass is suspended *)

Inductive method :=
| MGET (forceUpdate : bool)
| MPOST.

(** A handler suspended at [await handleCompilation(...)]: [entered] is the
    module state it left behind, [clock] its reading of [Date.now()]. *)
Record Pass := {
  pass_method : method;
  pass_time : Z;
  pass_clock : Z;
  entered : State
}.

Record Server := {
  state : State;
  pending : list Pass;
  made : list call;
  sent : list response
}.

Definition boot : Server :=
  {| state := initial; pending := []; made := []; sent := [] |}.

Inductive event :=
| Request (m : method) (currentTime clock : Z)
| Settle (i : nat) (o : Outcome).

Definition enter (m : method) (currentTime : Z) (st : State) : entry :=
  match m with
  | MGET forceUpdate => GET_enter forceUpdate currentTime st
  | MPOST => POST_enter currentTime st
  end.

Definition resume (m : method) (currentTime : Z) (r : result string unit) (st : State)
  : State * response :=
  match m with
  | MGET _ => GET_resume currentTime r st
  | MPOST => POST_resume currentTime r st
  end.

Definition forced (m : method) : bool :=
  match m with
  | MGET forceUpdate => forceUpdate
  | MPOST => true
  end.

Definition step (s : Server) (e : event) : Server :=
  match e with
  | Request m currentTime clock =>
      match enter m currentTime (state s) with
      | Answered r =>
          {| state := state s; pending := pending s; made := made s;
             sent := sent s ++ [r] |}
      | Suspended st1 =>
          {| state := st1;
             pending := pending s ++ [{| pass_method := m; pass_time := currentTime;
                                         pass_clock := clock; entered := st1 |}];
             made := made s; sent := sent s |}
      end
  | Settle i o =>
      match pending s !! i with
      | None => s
      | Some p =>
          let '(calls, r) :=
            handleCompilation (forced (pass_method p)) (pass_clock p) (entered p) o in
          let '(st2, resp) := resume (pass_method p) (pass_time p) r (state s) in
          {| state := st2; pending := delete i (pending s);
             made := made s ++ calls; sent := sent s ++ [resp] |}
      end
  end.

Definition run (es : list event) : Server := fold_left step es boot.

(** *** Vocabulary of the properties *)

Definition in_progress : response := Json true "Compilation already in progress" None.
Definition skipped : response := Json true "Compilation skipped due to cooldown" None.

Definition held (t : Z) : State := {| isCompiling := true; lastCompileTime := t |}.
Definition open (t : Z) : State := {| isCompiling := false; lastCompileTime := t |}.

(** Both awaited calls resolve. *)
Definition resolves : Outcome := {| compile_outcome := Ok tt; update_outcome := Ok tt |}.

(** The gate and the list of suspended handlers agree: closed with exactly
    one pass suspended, or open with none. *)
Definition gate_inv (s : Server) : Prop :=
  (isCompiling (state s) = false /\ pending s = [])
  \/ (isCompiling (state s) = true /\ exists p, pending s = [p]).

(** The number of requests among the events. *)
Definition requests (es : list event) : nat :=
  List.length (List.filter (fun e => match e with Request _ _ _ => true | Settle _ _ => false end) es).

(** A response that is a fault. *)
Definition is_fault (r : response) : bool :=
  match r with
  | Fault _ _ => true
  | Json _ _ _ => false
  end.

End CollectionCompile.

(** ** The distributed cache tier *)

Module Redis.

(** Modelled from the spec: the state of the distributed tier of
    [@src/databases/redis], which is not among the sources.  The tier is
    optional ([enabled]); an entry is a payload with the time it expires. *)
Record Store := {
  enabled : bool;
  entries : gmap string (Js.value * Z)
}.

(** Modelled from the spec: [isRedisEnabled()] of [@src/databases/redis]. *)
Definition isRedisEnabled (r : Store) : bool := enabled r.

(** Modelled from the spec: [getCache(key)] of [@src/databases/redis].
    Entries expire after their TTL, and a cache failure ([up = false]: the
    round-trip does not reach the server) is logged and bypassed, which
    reads as a miss. *)
Definition getCache (up : bool) (key : string) (now : Z) (r : Store)
  : option Js.value :=
  if up then
    match entries r !! key with
    | Some (v, expires) => if now <? expires then Some v else None
    | None => None
    end
  else None.

(** Modelled from the spec: [setCache(key, value, ttl)] of
    [@src/databases/redis]; a failed round-trip stores nothing and is not
    an error of the caller. *)
Definition setCache (up : bool) (key : string) (v : Js.value) (ttl now : Z)
  (r : Store) : Store :=
  if up
  then {| enabled := enabled r; entries := <[key := (v, now + ttl)]> (entries r) |}
  else r.

(** Modelled from the spec: [clearCache(pattern)] of [@src/databases/redis]
    for a pattern that is a prefix followed by the wildcard. *)
Definition clearCache (up : bool) (prefix : string) (r : Store) : Store :=
  if up
  then {| enabled := enabled r;
          entries := filter (fun kv => JsString.starts_with prefix kv.1 = false)
                            (entries r) |}
  else r.

End Redis.

(** ** collections/+server.ts: the collections read endpoint *)

Module Collections.
Import JsString Js.

Definition CACHE_TTL : Z := 300.
Definition BATCH_SIZE : nat := 50.

(** What a [throw] carries: an [HttpError] made by SvelteKit's [error], or
    an [Error]. *)
Inductive thrown :=
| HttpError (status : Z) (message : string)
| Error (message : string).

Inductive response :=
| Json (body : value)
| Fault (status : Z) (message : string).

Definition dquote : string := String (byte 34) EmptyString.

Definition quoted (s : string) : string := dquote +:+ s +:+ dquote.

(** [err instanceof Error ? err.message : String(err)]: an [HttpError] is
    not an [Error], and prints as the JSON of its body. *)
Definition errorMessage (t : thrown) : string :=
  match t with
  | Error m => m
  | HttpError _ m => "{" +:+ quoted "message" +:+ ":" +:+ quoted m +:+ "}"
  end.

(** The pattern matches [w] between two word boundaries at the head of [s],
    [prev] being the byte before it. *)
Definition word_at (w : string) (prev : option ascii) (s : string) : bool :=
  negb (is_word_opt prev) && starts_with w s
  && negb (is_word_opt (head (slice_from (String.length w) s))).

(** A global [replace] of the whole word [w] by [rep]. *)
Fixpoint replace_word (w rep : string) (prev : option ascii) (skip : nat) (s : string)
  : string :=
  match s with
  | EmptyString => EmptyString
  | String c s' =>
      match skip with
      | S k => replace_word w rep (Some c) k s'
      | O =>
          if word_at w prev s
          then rep +:+ replace_word w rep (Some c) (String.length w - 1) s'
          else String c (replace_word w rep (Some c) O s')
      end
  end.

Definition sanitize (content : string) : string :=
  replace_word "class" (quoted "class") None O
    (replace_word "new" (quoted "new") None O
       (replace_word "eval" (quoted "eval") None O
          (replace_word "function" (quoted "function") None O content))).

Definition invalid_format : thrown := Error "Invalid collection file format".

Definition safeParseCollectionFile (content : string) : result thrown value :=
  match JSON_parse (sanitize content) with
  | Some parsed =>
      if is_object parsed then Ok (JObj [("default", parsed)]) else Err invalid_format
  | None => Err invalid_format
  end.

(** The collections folder as [fs.readdir] lists it: each name with the
    content of the regular file, or [None] for a directory. *)
Definition Folder := list (string * option string).

Fixpoint entry (name : string) (d : Folder) : option (option string) :=
  match d with
  | [] => None
  | (n, e) :: rest => if String.eqb name n then Some e else entry name rest
  end.

(** [fs.readFile(path.join(folder, name), 'utf-8')] *)
Definition read (d : Folder) (name : string) : result thrown string :=
  match entry name d with
  | Some (Some content) => Ok content
  | Some None => Err (Error "EISDIR: illegal operation on a directory, read")
  | None => Err (Error ("ENOENT: no such file or directory, open '" +:+ name +:+ "'"))
  end.

(** [Promise.all(xs.map(f))]: all results, or a rejection. *)
Fixpoint all {A B} (f : A -> result thrown B) (xs : list A) : result thrown (list B) :=
  match xs with
  | [] => Ok []
  | x :: rest =>
      try! y := f x in
      try! ys := all f rest in
      Ok (y :: ys)
  end.

Definition processBatch (files : list string) (baseFolder : Folder)
  : result thrown (list value) :=
  all (fun file => try! content := read baseFolder file in safeParseCollectionFile content)
      files.

(** [for (let i = 0; i < jsFiles.length; i += BATCH_SIZE)
       batches.push(jsFiles.slice(i, i + BATCH_SIZE))] *)
Fixpoint batches (fuel : nat) (jsFiles : list string) : list (list string) :=
  match fuel with
  | O => []
  | S f =>
      match jsFiles with
      | [] => []
      | _ => take BATCH_SIZE jsFiles :: batches f (drop BATCH_SIZE jsFiles)
      end
  end.

(** [path.basename(name)] on POSIX: the last segment, trailing separators
    ignored. *)
Fixpoint basename_from (last cur : string) (name : string) : string :=
  match name with
  | EmptyString => if String.eqb cur "" then last else cur
  | String c rest =>
      if Ascii.eqb c "/"%char
      then basename_from (if String.eqb cur "" then last else cur) "" rest
      else basename_from last (cur +:+ String c EmptyString) rest
  end.

Definition basename (name : string) : string := basename_from "" "" name.

(** [collectionManager.getCollectionData()] *)
Record Registry := {
  collections : list (list (string * value));
  categories : value
}.

(** [collections.find((c) => c.name === name)] *)
Fixpoint find_collection (name : string) (cs : list (list (string * value)))
  : option (list (string * value)) :=
  match cs with
  | [] => None
  | c :: rest =>
      match get "name" c with
      | Some (JStr n) => if String.eqb n name then Some c else find_collection name rest
      | _ => find_collection name rest
      end
  end.

(** [!name] for a query parameter: absent or empty *)
Definition falsy (name : option string) : bool :=
  match name with
  | None => true
  | Some n => String.eqb n ""
  end.

(** The name parameter as a string, for a request that carries one. *)
Definition given (name : option string) : string :=
  match name with
  | Some n => n
  | None => ""
  end.

Definition or_default (action : option string) : string :=
  match action with
  | None => "default"
  | Some a => if String.eqb a "" then "default" else a
  end.

Definition cacheKey (action name : option string) : string :=
  "api:collections:" +:+ or_default action
    +:+ match name with
        | None => ""
        | Some n => if String.eqb n "" then "" else ":" +:+ n
        end.

(** Of an object, the properties among [keys] that are defined, as they
    survive serialisation. *)
Definition pick (keys : list string) (c : list (string * value)) : list (string * value) :=
  omap (fun k => match get k c with Some v => Some (k, v) | None => None end) keys.

(** The [switch (action)] of [GET]: the response computed from the registry
    and the folder. *)
Definition compute (action name : option string) (reg : Registry) (d : Folder)
  : result thrown value :=
  let a := match action with Some a => a | None => "" end in
  if String.eqb a "structure" then
    Ok (JObj [("collections", JArr (map JObj (collections reg)));
              ("categories", categories reg)])
  else if String.eqb a "files" then
    let files := map fst d in
    let jsFiles := List.filter (ends_with ".js") files in
    try! results := all (fun batch => processBatch batch d)
                        (batches (List.length jsFiles) jsFiles) in
    Ok (JArr (List.concat results))
  else if String.eqb a "file" then
    if falsy name then Err (HttpError 400 "File name required")
    else
      let fileName := basename (given name) in
      if String.eqb fileName ".." then Err (HttpError 400 "Invalid file path")
      else if String.eqb fileName "" || String.eqb fileName "." then
        Err (Error "EISDIR: illegal operation on a directory, read")
      else
        try! content := read d fileName in
        safeParseCollectionFile content
  else if String.eqb a "names" then
    Ok (JArr (map (fun col => match get "name" col with Some n => n | None => JNull end)
                  (collections reg)))
  else if String.eqb a "collection" then
    if falsy name then Err (HttpError 400 "Collection name is required")
    else
      match find_collection (given name) (collections reg) with
      | Some foundCollection => Ok (JObj foundCollection)
      | None => Err (HttpError 404 "Collection not found")
      end
  else
    Ok (JObj [("success", JBool true);
              ("collections",
               JArr (map (fun c => JObj (pick ["name"; "icon"; "path"] c))
                         (collections reg)))]).

(** The [catch] of [GET]: every throw of the body, an [HttpError] too,
    leaves as a 500. *)
Definition respond (r : result thrown value) : response :=
  match r with
  | Ok response => Json response
  | Err t => Fault 500 ("Failed to process collections request: " +:+ errorMessage t)
  end.

(** The health of the two cache round-trips of one request. *)
Record Health := { get_up : bool; set_up : bool }.

Definition GET (browser : bool) (action name : option string) (now : Z)
  (reg : Registry) (d : Folder) (h : Health) (redis : Redis.Store)
  : Redis.Store * response :=
  let caching := negb browser && Redis.isRedisEnabled redis in
  let hit :=
    if caching then
      match Redis.getCache (get_up h) (cacheKey action name) now redis with
      | Some cached => if truthy cached then Some cached else None
      | None => None
      end
    else None in
  match hit with
  | Some cached => (redis, Json cached)
  | None =>
      match compute action name reg d with
      | Ok response =>
          (if caching
           then Redis.setCache (set_up h) (cacheKey action name) response CACHE_TTL now redis
           else redis,
           Json response)
      | Err t => (redis, respond (Err t))
      end
  end.

(** *** [POST] *)

Inductive call :=
| ClearCache (pattern : string)
| UpdateCollections (force : bool).

(** [data.action] for the parsed body; reading a property of [null]
    throws. *)
Definition action_of (data : value) : result thrown (option value) :=
  match data with
  | JNull => Err (Error "Cannot read properties of null (reading 'action')")
  | JObj props => Ok (get "action" props)
  | _ => Ok None
  end.

(** [body] is how [request.json()] settles, [update] how
    [collectionManager.updateCollections(true)] does, [up] whether the
    round-trip of [clearCache] reaches the cache. *)
Definition POST (browser : bool) (body : result string value) (up : bool)
  (update : result string unit) (redis : Redis.Store)
  : Redis.Store * list call * response :=
  let invalid := (redis, [], respond (Err (HttpError 400 "Invalid action"))) in
  match body with
  | Err m => (redis, [], respond (Err (Error m)))
  | Ok data =>
      match action_of data with
      | Err t => (redis, [], respond (Err t))
      | Ok (Some (JStr action)) =>
          if String.eqb action "recompile" then
            let caching := negb browser && Redis.isRedisEnabled redis in
            let redis' :=
              if caching then Redis.clearCache up "api:collections:" redis else redis in
            let calls :=
              (if caching then [ClearCache "api:collections:*"] else [])
                ++ [UpdateCollections true] in
            match update with
            | Ok _ =>
                (redis', calls,
                 Json (JObj [("success", JBool true);
                             ("message", JStr "Collections recompiled successfully")]))
            | Err m => (redis', calls, respond (Err (Error m)))
            end
          else invalid
      | Ok _ => invalid
      end
  end.

(** *** Vocabulary of the properties *)

(** What one file of the [files] action becomes. *)
Definition served (d : Folder) (file : string) : result thrown value :=
  try! content := read d file in safeParseCollectionFile content.

(** No byte of the string is the path separator. *)
Definition slash_free (s : string) : Prop :=
  forall c, In c (list_ascii_of_string s) -> c <> "/"%char.

(** A store with the cache tier disabled. *)
Definition no_cache (es : gmap string (value * Z)) : Redis.Store :=
  {| Redis.enabled := false; Redis.entries := es |}.

End Collections.

(** ** categories/+server.ts: the partial update of one category *)

Module Categories.
Import JsString Js.

Definition CACHE_TTL : Z := 300.

(** [CategoryData]: the own properties of a category other than
    [subcategories], and its [subcategories] when it has them. *)
Inductive category :=
| Category (props : list (string * value))
           (subcategories : option (list (string * category))).

(** [Record<string, CategoryData>], in enumeration order *)
Definition tree := list (string * category).

(** The [updates] of the request body, a [Partial<CategoryData>]:
    [set_subcategories] is [None] when the key is absent, [Some None] when
    it is [null]. *)
Record Updates := {
  set_props : list (string * value);
  set_subcategories : option (option tree)
}.

(** [Object.assign(cats[key], updates)] *)
Definition assign_category (c : category) (updates : Updates) : category :=
  match c with
  | Category props subcategories =>
      Category (assign props (set_props updates))
               (match set_subcategories updates with
                | Some s => s
                | None => subcategories
                end)
  end.

(** [cats[key].id === categoryId]; [None] is [undefined] on either side. *)
Definition id_is (categoryId : option value) (props : list (string * value)) : bool :=
  match get "id" props, categoryId with
  | Some a, Some b => strict_equal a b
  | None, None => true
  | _, _ => false
  end.

(** [for (const key in cats)] with a body that either mutates [cats[key]]
    (or something below it) and returns true, or goes on to the next key.
    [Some cats'] is [true] with the tree as mutated, [None] is [false]. *)
Definition first_updated {A} (body : A -> option A)
  : list (string * A) -> option (list (string * A)) :=
  fix loop cats :=
    match cats with
    | [] => None
    | (key, c) :: rest =>
        match body c with
        | Some c' => Some ((key, c') :: rest)
        | None =>
            match loop rest with
            | Some rest' => Some ((key, c) :: rest')
            | None => None
            end
        end
    end.

Section Update.

Variable categoryId : option value.
Variable updates : Updates.

(** The body of the loop of [updateCategory] for [cats[key] = c]. *)
Fixpoint updateNode (c : category) : option category :=
  match c with
  | Category props subcategories =>
      if id_is categoryId props then Some (assign_category c updates)
      else
        match subcategories with
        | Some cats =>
            match first_updated updateNode cats with
            | Some cats' => Some (Category props (Some cats'))
            | None => None
            end
        | None => None
        end
  end.

Definition updateCategory (cats : tree) : option tree :=
  first_updated updateNode cats.

End Update.

Inductive effect :=
| BackupCategoryFiles
| WriteFile (path content : string)
| ClearCache (pattern : string)
| UpdateCollections (force : bool).

(** How the awaited calls settle; [Err m] is a rejection with message [m]. *)
Record IO := {
  backup : result string unit;
  write : result string unit;
  update : result string unit
}.

Inductive response :=
| Updated (message : string) (categories : tree)
| Fault (status : Z) (message : string).

Definition categoriesPath : string := "src/collections/categories.ts".

Definition header : string :=
"/**
 * @file src/collections/categories.ts
 * @description Category configuration generated from folder structure
 * 
 * ⚠️ WARNING: This is an auto-generated file.
 * DO NOT MODIFY DIRECTLY - Changes will be overwritten by the CMS.
 * 
 * This file is generated from:
 * 1. Folder structure in src/collections/
 * 2. GUI updates via /api/categories
 * 
 * Translations are stored in the database, not in this file.
 */

import type { CategoryData } from './types';

// Auto-generated category configuration
export const categoryConfig: Record<string, CategoryData> = ".

Section Handler.

(** [JSON.stringify(data, null, 2)] *)
Variable JSON_stringify : tree -> string.

Definition generateCategoriesFileContent (data : tree) : string :=
  header +:+ JSON_stringify data +:+ ";" +:+ String LF EmptyString.

Definition failed (m : string) : string := "Failed to update category: " +:+ m.

(** [categories] is the registry's own tree, which [updateCategory] mutates
    in place: the first component of the result is the registry's tree
    after the request, whatever the response.  The module does not import
    [browser]; [browser_global] is the binding of that name in the global
    scope, [None] when there is none and reading it is a [ReferenceError]. *)
Definition PUT (categoryId : option value) (updates : Updates) (categories : tree)
  (io : IO) (browser_global : option bool) (redis : Redis.Store)
  : tree * list effect * response :=
  match updateCategory categoryId updates categories with
  | Some categories' =>
      let saved := WriteFile categoriesPath (generateCategoriesFileContent categories') in
      match backup io with
      | Err m => (categories', [BackupCategoryFiles], Fault 500 (failed m))
      | Ok _ =>
          match write io with
          | Err _ =>
              (categories', [BackupCategoryFiles; saved],
               Fault 500 (failed "Failed to save categories file"))
          | Ok _ =>
              match browser_global with
              | None =>
                  (categories', [BackupCategoryFiles; saved],
                   Fault 500 (failed "browser is not defined"))
              | Some browser =>
                  let cleared :=
                    if negb browser && Redis.isRedisEnabled redis
                    then [ClearCache "api:categories:*"] else [] in
                  match update io with
                  | Err m =>
                      (categories',
                       [BackupCategoryFiles; saved] ++ cleared ++ [UpdateCollections true],
                       Fault 500 (failed m))
                  | Ok _ =>
                      (categories',
                       [BackupCategoryFiles; saved] ++ cleared ++ [UpdateCollections true],
                       Updated "Category updated successfully" categories')
                  end
              end
          end
      end
  | None =>
      (categories, [],
       Fault 500 (failed (Collections.errorMessage
                            (Collections.HttpError 404 "Category not found"))))
  end.

End Handler.

(** *** [saveCategoryFile], [validateCategoryData], [POST] and [GET] *)

(** [s.includes(pat)] *)
Fixpoint includes (pat s : string) : bool :=
  starts_with pat s
  || match s with
     | EmptyString => false
     | String _ rest => includes pat rest
     end.

(** [generateCategoriesFileContent(data)], [json] being
    [JSON.stringify(data, null, 2)]. *)
Definition fileContent (json : string) : string :=
  header +:+ json +:+ ";" +:+ String LF EmptyString.

(** [saveCategoryFile(data)]; both the check of the generated content and
    a failed write leave through the same [catch]. *)
Definition saveCategoryFile (json : string) (write : result string unit)
  : list effect * result string unit :=
  let content := fileContent json in
  if negb (includes "export const categoryConfig" content)
  then ([], Err "Failed to save categories file")
  else
    match write with
    | Ok _ => ([WriteFile categoriesPath content], Ok tt)
    | Err _ => ([WriteFile categoriesPath content], Err "Failed to save categories file")
    end.

(** [Object.entries(data)] *)
Definition entries (data : value) : list (string * value) :=
  match data with
  | JObj props => props
  | JArr items => imap (fun i v => (pretty i, v)) items
  | _ => []
  end.

(** The negation of
    [!value || typeof value !== 'object' || !value.name || !value.icon]. *)
Definition well_formed (v : value) : bool :=
  match v with
  | JObj props =>
      match get "name" props, get "icon" props with
      | Some name, Some icon => truthy name && truthy icon
      | _, _ => false
      end
  | _ => false
  end.

Fixpoint first_invalid (es : list (string * value)) : option string :=
  match es with
  | [] => None
  | (key, v) :: rest => if well_formed v then first_invalid rest else Some key
  end.

Definition validateCategoryData (data : value) : result string unit :=
  if negb (truthy data) || negb (is_object data) then Err "Invalid category data format"
  else
    match first_invalid (entries data) with
    | Some key => Err ("Invalid category data for key " +:+ Collections.quoted key)
    | None => Ok tt
    end.

Inductive reply :=
| Success (message : string)
| Body (body : value)
| Failure (status : Z) (message : string).

Section Endpoints.

(** [JSON.stringify(data, null, 2)] for the body of [POST] *)
Variable JSON_stringify : value -> string.

(** The categories of the registry as they are serialised in a response. *)
Variable serialise : tree -> value.

(** [body] is how [request.json()] settles. *)
Definition POST (body : result string value) (io : IO) (browser_global : option bool)
  (redis : Redis.Store) : list effect * reply :=
  let failed m := Failure 500 ("Failed to update categories: " +:+ m) in
  match body with
  | Err m => ([], failed m)
  | Ok data =>
      match validateCategoryData data with
      | Err m => ([], failed m)
      | Ok _ =>
          match backup io with
          | Err m => ([BackupCategoryFiles], failed m)
          | Ok _ =>
              let '(written, saved) := saveCategoryFile (JSON_stringify data) (write io) in
              match saved with
              | Err m => (BackupCategoryFiles :: written, failed m)
              | Ok _ =>
                  match browser_global with
                  | None =>
                      (BackupCategoryFiles :: written, failed "browser is not defined")
                  | Some browser =>
                      let cleared :=
                        if negb browser && Redis.isRedisEnabled redis
                        then [ClearCache "api:categories:*"] else [] in
                      (BackupCategoryFiles :: written ++ cleared ++ [UpdateCollections true],
                       match update io with
                       | Ok _ => Success "Categories updated successfully"
                       | Err m => failed m
                       end)
                  end
              end
          end
      end
  end.

Definition cacheKey (action : option string) : string :=
  "api:categories:" +:+ Collections.or_default action.

Definition GET (browser_global : option bool) (action : option string) (now : Z)
  (categories : tree) (h : Collections.Health) (redis : Redis.Store)
  : Redis.Store * reply :=
  match browser_global with
  | None => (redis, Failure 500 "Failed to fetch categories")
  | Some browser =>
      let caching := negb browser && Redis.isRedisEnabled redis in
      let hit :=
        if caching then
          match Redis.getCache (Collections.get_up h) (cacheKey action) now redis with
          | Some cached => if truthy cached then Some cached else None
          | None => None
          end
        else None in
      match hit with
      | Some cached => (redis, Body cached)
      | None =>
          let response :=
            JObj [("success", JBool true); ("categories", serialise categories)] in
          (if caching
           then Redis.setCache (Collections.set_up h) (cacheKey action) response CACHE_TTL now
                  redis
           else redis,
           Body response)
      end
  end.

End Endpoints.

(** *** Vocabulary of the properties *)


(** The categories of a tree in depth-first order, each key checked before
    its subcategories and those before the next key: the path of keys to
    the category, and its own properties. *)
Fixpoint flattenNode (path : list string) (c : category)
  : list (list string * list (string * value)) :=
  match c with
  | Category props subcategories =>
      (path, props)
        :: match subcategories with
           | Some cats =>
               flat_map (fun kc => let '(key, c') := kc in flattenNode (path ++ [key]) c')
                        cats
           | None => []
           end
  end.

Definition flatten (path : list string) (cats : tree)
  : list (list string * list (string * value)) :=
  flat_map (fun kc => let '(key, c) := kc in flattenNode (path ++ [key]) c) cats.

(** No category of the listing has the id. *)
Definition untouched (categoryId : option value)
  (l : list (list string * list (string * value))) : Prop :=
  forall path props, In (path, props) l -> id_is categoryId props = false.

(** What an update does to the depth-first listing: the first category
    with the id is replaced by the merge, all before and after it stay;
    and when no category has the id there is no update. *)
Definition merged_first (categoryId : option value) (updates : Updates)
  (old : list (list string * list (string * value)))
  (result : option (list (list string * list (string * value)))) : Prop :=
  match result with
  | Some new =>
      exists before path props subcategories after,
        old = before ++ flattenNode path (Category props subcategories) ++ after
        /\ untouched categoryId before
        /\ id_is categoryId props = true
        /\ new = before
                 ++ flattenNode path (assign_category (Category props subcategories) updates)
                 ++ after
  | None => untouched categoryId old
  end.

(** The tree of the specification's example:
    [{A: {id: 1}, B: {id: 2, subcategories: {C: {id: 3}}}}] *)
Definition example : tree :=
  [("A", Category [("id", JNum 1 0)] None);
   ("B", Category [("id", JNum 2 0)]
                  (Some [("C", Category [("id", JNum 3 0)] None)]))].

End Categories.

(** ** user/logout/+server.ts *)

Module Logout.

(** What the handler sees and changes of the request: the cookies and
    [locals.user]. *)
Record Event := {
  cookies : gmap string string;
  user : option string
}.

Inductive response :=
| Json (status : Z) (success : bool) (message : string).

Section Handler.

(** The constant of [@src/auth]. *)
Variable SESSION_COOKIE_NAME : string.

Definition cleared (ev : Event) : Event :=
  {| cookies := delete SESSION_COOKIE_NAME (cookies ev); user := None |}.

(** [auth] tells whether the authentication system is initialised,
    [destroySession] how [auth.destroySession(session_id)] settles.  The
    second component of the result lists the sessions the handler asked to
    destroy. *)
Definition POST (auth : bool) (destroySession : string -> result string unit)
  (ev : Event) : Event * list string * response :=
  if negb auth then (ev, [], Json 500 false "Internal Server Error")
  else
    match cookies ev !! SESSION_COOKIE_NAME with
    | Some (String c rest) =>
        let session_id := String c rest in
        match destroySession session_id with
        | Ok _ => (cleared ev, [session_id], Json 200 true "Logged out successfully")
        | Err _ => (ev, [session_id], Json 500 false "An error occurred during logout")
        end
    | _ => (cleared ev, [], Json 200 true "Logged out successfully")
    end.

End Handler.

Definition status_of (r : response) : Z :=
  match r with
  | Json status _ _ => status
  end.

End Logout.

(** ** Sample inputs *)

Module Samples.

(** Stands for the TypeScript compiler on sources that are already plain
    JavaScript. *)
Definition transpiler (content : string) : string := content.

Definition source : Compile.File :=
  {| Compile.mtime := 10; Compile.content := "export default {};" |}.

Definition artifact_text : string :=
  "// " +:+ Compile.getContentHash "export default {};" +:+ Compile.nl
        +:+ "export default {};".

Definition artifact : Compile.File :=
  {| Compile.mtime := 20; Compile.content := artifact_text |}.

(** A source with its up-to-date artifact. *)
Definition world : Compile.World :=
  {| Compile.files := <["/out/a.js" := artifact]> (<["/src/a.ts" := source]> ∅);
     Compile.cache := ∅ |}.

Definition edited : Compile.File :=
  {| Compile.mtime := 30; Compile.content := "export default { a: 1 };" |}.

(** The same after the source has been edited. *)
Definition edited_world : Compile.World :=
  {| Compile.files := <["/src/a.ts" := edited]> (Compile.files world);
     Compile.cache := ∅ |}.

(** The same after a pass has compiled the first version and the source has
    then been edited: the memo still holds the first transform. *)
Definition edited_world_after_pass : Compile.World :=
  {| Compile.files := Compile.files edited_world;
     Compile.cache := {["/src/a.ts" := "export default {};"]} |}.

(** The collections folder with an artifact of the compiler in it. *)
Definition folder : Collections.Folder :=
  [("a.js", Some artifact_text); ("b.js", Some "{}")].

Definition registry : Collections.Registry :=
  {| Collections.collections := [[("name", Js.JStr "Posts"); ("icon", Js.JStr "bi:card-text")]];
     Collections.categories := Js.JObj [] |}.

Definition healthy : Collections.Health :=
  {| Collections.get_up := true; Collections.set_up := true |}.

Definition rename : Categories.Updates :=
  {| Categories.set_props := [("name", Js.JStr "Renamed")];
     Categories.set_subcategories := None |}.

Definition io_ok : Categories.IO :=
  {| Categories.backup := Ok tt; Categories.write := Ok tt; Categories.update := Ok tt |}.

Definition redis_off : Redis.Store := {| Redis.enabled := false; Redis.entries := ∅ |}.

(** A sources folder: two collections, one of them in a sub-directory,
    beside a reserved file, a file of another kind and a symbolic link. *)
Definition tree : list Compile.dirent :=
  [Compile.RegularFile "a.ts"; Compile.RegularFile "index.ts";
   Compile.Directory "blog" [Compile.RegularFile "post.ts"; Compile.RegularFile "notes.md"];
   Compile.Special "link.ts"].

Definition post : Compile.File :=
  {| Compile.mtime := 12; Compile.content := "export default { name: 'post' };" |}.

(** The files of that folder before any pass. *)
Definition project : Compile.World :=
  {| Compile.files := <["/src/blog/post.ts" := post]> (<["/src/a.ts" := source]> ∅);
     Compile.cache := ∅ |}.

(** What [compileFile] leaves of [edited_world]. *)
Definition recompiled : Compile.World :=
  Compile.compiled transpiler "a.ts" "/src" "/out" 40 edited edited_world.

(** An artifact whose source is gone. *)
Definition orphan : Compile.World :=
  {| Compile.files := {["/out/gone.js" := artifact]}; Compile.cache := ∅ |}.

Definition redis_on : Redis.Store := {| Redis.enabled := true; Redis.entries := ∅ |}.

Definition posts : list (string * Js.value) :=
  [("name", Js.JStr "Posts"); ("icon", Js.JStr "bi:card-text")].

Definition listing : Js.value :=
  Js.JObj [("success", Js.JBool true);
           ("collections", Js.JArr [Js.JObj posts])].

Definition renamed : Categories.tree :=
  [("A", Categories.Category [("id", Js.JNum 1 0)] None);
   ("B", Categories.Category [("id", Js.JNum 2 0)]
           (Some [("C", Categories.Category
                          [("id", Js.JNum 3 0); ("name", Js.JStr "Renamed")] None)]))].

Definition backup_fails : Categories.IO :=
  {| Categories.backup := Err "EACCES"; Categories.write := Ok tt;
     Categories.update := Ok tt |}.

Definition signed_in : Logout.Event :=
  {| Logout.cookies := {["auth_session" := "s1"; "theme" := "dark"]};
     Logout.user := Some "ada" |}.

Definition signed_out : Logout.Event :=
  {| Logout.cookies := {["theme" := "dark"]}; Logout.user := None |}.

End Samples.

(** * Properties *)

(** ** The test suite of RFC 1321 *)

Example md5_empty : MD5.md5 "" = "d41d8cd98f00b204e9800998ecf8427e".
Proof. vm_compute. reflexivity. Qed.
Example md5_abc : MD5.md5 "abc" = "900150983cd24fb0d6963f7d28e17f72".
Proof. vm_compute. reflexivity. Qed.
Example md5_a : MD5.md5 "a" = "0cc175b9c0f1b6a831c399e269772661".
Proof. vm_compute. reflexivity. Qed.
Example md5_md : MD5.md5 "message digest" = "f96b697d7cb7938d525a2f31aaf161d0".
Proof. vm_compute. reflexivity. Qed.
Example md5_long :
  MD5.md5 "12345678901234567890123456789012345678901234567890123456789012345678901234567890"
  = "57edf4a22be3c955ac49da2e2107b67a".
Proof. vm_compute. reflexivity. Qed.

(** ** The orchestrator's gate *)

Section Orchestrator.
Import CollectionCompile.

Lemma enter_held m currentTime t :
  enter m currentTime (held t) = Answered in_progress.
Proof. destruct m; reflexivity. Qed.

Lemma enter_cases m currentTime st :
  (exists r, enter m currentTime st = Answered r)
  \/ (isCompiling st = false
      /\ enter m currentTime st = Suspended (held currentTime)).
Proof.
  destruct m as [f|]; cbn [enter]; unfold GET_enter, POST_enter;
    destruct (isCompiling st); eauto.
  destruct (negb f && _); eauto.
Qed.

Lemma resume_releases m currentTime r st :
  isCompiling (resume m currentTime r st).1 = false.
Proof. destruct m, r; reflexivity. Qed.

Lemma step_gate_inv s e : gate_inv s -> gate_inv (step s e).
Proof.
  intros Hinv. destruct e as [m currentTime clock | i o]; cbn [step].
  - destruct (enter_cases m currentTime (state s)) as [[r ->] | [Hopen ->]];
      [exact Hinv |].
    destruct Hinv as [[_ Hp] | [Hc _]]; [| congruence].
    right. cbn. rewrite Hp. eauto.
  - destruct (pending s !! i) as [p|] eqn:Hi; [| exact Hinv].
    destruct (handleCompilation _ _ _ _) as [calls r].
    pose proof (resume_releases (pass_method p) (pass_time p) r (state s)) as Hrel.
    destruct (resume _ _ _ _) as [st2 resp]. cbn in *.
    destruct Hinv as [[_ Hp] | [_ [q Hq]]].
    + rewrite Hp in Hi. discriminate.
    + left. split; [exact Hrel |]. rewrite Hq in *.
      destruct i as [|i]; [reflexivity | discriminate].
Qed.

Lemma fold_gate_inv es s : gate_inv s -> gate_inv (fold_left step es s).
Proof.
  revert s. induction es as [|e es IH]; intros s Hs; [exact Hs |].
  cbn. apply IH, step_gate_inv, Hs.
Qed.

Lemma run_gate_inv es : gate_inv (run es).
Proof. apply fold_gate_inv. left. split; reflexivity. Qed.

Lemma request_while_held s m currentTime clock :
  isCompiling (state s) = true ->
  step s (Request m currentTime clock)
  = {| state := state s; pending := pending s; made := made s;
       sent := sent s ++ [in_progress] |}.
Proof.
  intros Hc. cbn [step].
  destruct (state s) as [c t] eqn:Hst. cbn in Hc. subst c.
  change {| isCompiling := true; lastCompileTime := t |} with (held t).
  rewrite enter_held. reflexivity.
Qed.

Lemma settle_releases s p o :
  pending s = [p] ->
  isCompiling (state (step s (Settle 0 o))) = false
  /\ pending (step s (Settle 0 o)) = [].
Proof.
  intros Hp. cbn [step]. rewrite Hp. cbn [lookup list_lookup].
  destruct (handleCompilation _ _ _ _) as [calls r].
  pose proof (resume_releases (pass_method p) (pass_time p) r (state s)) as Hrel.
  destruct (resume _ _ _ _) as [st2 resp]. cbn in *. split; [exact Hrel | reflexivity].
Qed.

(** C1. The orchestrator is a single-flight gate.  A GET or a POST that
    finds [isCompiling] set answers 'Compilation already in progress' with
    success, makes no call to the compiler or the registry and leaves the
    state as it was.  A handler that takes the gate has reset [isCompiling]
    when its response or its fault is produced, whatever the pass did.  In
    every state the server reaches through any sequence of requests and
    settlements, either the gate is open and nothing is suspended, or
    exactly one pass is suspended: every request arriving then is answered
    'already in progress' without any other change, and the settlement of
    that pass, resolved or rejected, reopens the gate. *)
Theorem single_flight_gate :
  (forall forceUpdate currentTime clock o t,
      GET forceUpdate currentTime clock o (held t) = (held t, [], in_progress))
  /\ (forall currentTime clock o t,
      POST currentTime clock o (held t) = (held t, [], in_progress))
  /\ (forall forceUpdate currentTime clock o t,
      isCompiling (GET forceUpdate currentTime clock o (open t)).1.1 = false)
  /\ (forall currentTime clock o t,
      isCompiling (POST currentTime clock o (open t)).1.1 = false)
  /\ (forall es,
      let s := run es in
      (isCompiling (state s) = false /\ pending s = [])
      \/ (isCompiling (state s) = true
          /\ (exists p, pending s = [p])
          /\ (forall m currentTime clock,
                 step s (Request m currentTime clock)
                 = {| state := state s; pending := pending s; made := made s;
                      sent := sent s ++ [in_progress] |})
          /\ (forall o,
                 isCompiling (state (step s (Settle 0 o))) = false
                 /\ pending (step s (Settle 0 o)) = []))).
Proof.
  split; [reflexivity |]. split; [reflexivity |]. split; [| split].
  - intros. unfold GET, GET_enter. cbn [isCompiling open].
    destruct (negb forceUpdate && _); [reflexivity |].
    destruct (handleCompilation _ _ _ _) as [calls [[]|m]]; reflexivity.
  - intros. unfold POST, POST_enter. cbn [isCompiling open].
    destruct (handleCompilation _ _ _ _) as [calls [[]|m]]; reflexivity.
  - intros es s. destruct (run_gate_inv es) as [H | [Hc [p Hp]]]; [left; exact H |].
    right. split; [exact Hc |]. split; [eauto |]. split.
    + intros. apply request_while_held, Hc.
    + intros o. apply (settle_releases _ p), Hp.
Qed.

Lemma unforced_pass_skips_compile currentTime clock o t :
  COMPILE_COOLDOWN <= currentTime - t ->
  clock - currentTime <= COMPILE_COOLDOWN ->
  GET false currentTime clock o (open t)
  = (open currentTime, [CallUpdateCollections false],
     match update_outcome o with
     | Ok _ => Json true "Compilation and collection update completed" (Some currentTime)
     | Err m => Fault 500 (failed m)
     end).
Proof.
  intros Hgate Hclock. unfold GET, GET_enter, handleCompilation.
  cbn [isCompiling lastCompileTime open negb andb orb].
  destruct (Z.ltb_spec (currentTime - t) COMPILE_COOLDOWN) as [|_]; [lia |].
  cbn [isCompiling lastCompileTime negb andb orb].
  destruct (Z.ltb_spec COMPILE_COOLDOWN (clock - currentTime)) as [|_]; [lia |].
  destruct (update_outcome o) as [[]|m]; reflexivity.
Qed.

(** C2. A non-forced trigger that finds the gate open one millisecond past
    the 60-second cooldown takes the gate, records the trigger time and
    reloads the registry, but never calls [compile()]: the handler has
    already overwritten [lastCompileTime] with the trigger time when
    [handleCompilation] compares the clock against it. *)
Theorem elapsed_cooldown_pass_never_compiles :
  forall currentTime o,
    GET false currentTime currentTime o (open (currentTime - 60001))
    = (open currentTime, [CallUpdateCollections false],
       match update_outcome o with
       | Ok _ => Json true "Compilation and collection update completed" (Some currentTime)
       | Err m => Fault 500 (failed m)
       end).
Proof.
  intros. apply unforced_pass_skips_compile; unfold COMPILE_COOLDOWN; lia.
Qed.

(** C9. A non-forced trigger that finds the gate open less than the
    cooldown after [lastCompileTime] answers 'Compilation skipped due to
    cooldown' with success, makes no call, and leaves [isCompiling] and
    [lastCompileTime] as they were. *)
Theorem cooldown_skip_leaves_state :
  forall currentTime clock o t,
    currentTime - t < COMPILE_COOLDOWN ->
    GET false currentTime clock o (open t) = (open t, [], skipped).
Proof.
  intros currentTime clock o t Hcool. unfold GET, GET_enter.
  cbn [isCompiling lastCompileTime open negb andb].
  destruct (Z.ltb_spec (currentTime - t) COMPILE_COOLDOWN) as [_|]; [reflexivity | lia].
Qed.

Lemma cooldown_skip_leaves_state_witness :
  59999 - 0 < COMPILE_COOLDOWN
  /\ GET false 59999 59999 resolves (open 0) = (open 0, [], skipped).
Proof.
  split; [reflexivity |].
  apply (cooldown_skip_leaves_state 59999 59999 resolves 0). reflexivity.
Defined.

End Orchestrator.

(** ** The hash gate of compile.ts *)

Section HashGate.
Import JsString Compile.


Lemma append_String a s t : String a s +:+ t = String a (s +:+ t).
Proof. reflexivity. Qed.




Lemma getExistingHash_lookup fs filePath f :
  fs !! filePath = Some f ->
  getExistingHash fs filePath = Some (replace_first "// " "" (first_line (content f))).
Proof. intros H. unfold getExistingHash, readFile. rewrite H. reflexivity. Qed.

Lemma differs_false_iff h e : differs h e = false <-> e = Some h.
Proof.
  destruct e as [h'|]; cbn; [| split; discriminate].
  rewrite negb_false_iff, String.eqb_eq. split; congruence.
Qed.

(** What [shouldRecompile] answers, through the two [stat] calls. *)
Lemma shouldRecompile_eq fs tsFilePath jsFilePath :
  shouldRecompile fs tsFilePath jsFilePath
  = Ok match fs !! jsFilePath with
       | None => true
       | Some jsStats =>
           match fs !! tsFilePath with
           | None => false
           | Some tsStats =>
               differs (MD5.md5 (content tsStats)) (getExistingHash fs jsFilePath)
               || (mtime jsStats <? mtime tsStats)
           end
       end.
Proof.
  unfold shouldRecompile, stat, getFileHash, readFile.
  destruct (fs !! jsFilePath) as [jsStats|]; [| reflexivity].
  destruct (fs !! tsFilePath) as [tsStats|]; reflexivity.
Qed.

Variable transpileModule : string -> string.

(** C3. [shouldRecompile] always answers, and answers true exactly when the
    artifact does not exist, or source and artifact both exist and the hash
    on the artifact's first line differs from the hash of the source's
    content or the source was modified later than the artifact.  With the
    source gone and the artifact there it answers false.  When the artifact
    carries the hash of the source's content and the source is not newer,
    [compileFile] succeeds and leaves the file system and the memo as they
    were: nothing is written. *)
Theorem hash_gate_decides :
  (forall (fs : FS) tsFilePath jsFilePath,
      exists stale,
        shouldRecompile fs tsFilePath jsFilePath = Ok stale
        /\ (stale = true <->
            fs !! jsFilePath = None
            \/ exists source artifact,
                fs !! tsFilePath = Some source /\ fs !! jsFilePath = Some artifact
                /\ (getExistingHash fs jsFilePath <> Some (MD5.md5 (content source))
                    \/ mtime artifact < mtime source))
        /\ (fs !! tsFilePath = None -> fs !! jsFilePath <> None -> stale = false))
  /\ (forall file srcFolder destFolder now w source artifact,
         files w !! path_join srcFolder file = Some source ->
         files w !! path_join destFolder (ts_to_js file) = Some artifact ->
         getExistingHash (files w) (path_join destFolder (ts_to_js file))
         = Some (MD5.md5 (content source)) ->
         mtime source <= mtime artifact ->
         compileFile transpileModule file srcFolder destFolder now w = Ok w).
Proof.
  split.
  - intros fs tsFilePath jsFilePath. eexists. split; [apply shouldRecompile_eq |].
    split.
    + destruct (fs !! jsFilePath) as [artifact|] eqn:Hjs; [| split; auto].
      destruct (fs !! tsFilePath) as [source|] eqn:Hts.
      * rewrite orb_true_iff, Z.ltb_lt. split.
        -- intros [Hd | Hm]; right; exists source, artifact; repeat split; auto.
           left. intros He. apply differs_false_iff in He. congruence.
        -- intros [? | (s & a & Hs & Ha & [Hd | Hm])]; [discriminate | |].
           ++ left. injection Hs as <-.
              destruct (differs _ _) eqn:Hdiff; [reflexivity |].
              apply differs_false_iff in Hdiff. contradiction.
           ++ right. congruence.
      * split; [discriminate |].
        intros [? | (s & a & Hs & _)]; discriminate.
    + intros -> Hjs. destruct (fs !! jsFilePath); [reflexivity | contradiction].
  - intros file srcFolder destFolder now w source artifact Hts Hjs Hh Hm.
    unfold compileFile. rewrite shouldRecompile_eq, Hjs, Hts, Hh.
    replace (differs _ _) with false by (symmetry; apply differs_false_iff; reflexivity).
    replace (mtime artifact <? mtime source) with false by (symmetry; apply Z.ltb_ge; exact Hm).
    reflexivity.
Qed.


(** C7. The memo is read with a truthiness test.  Starting from a memo
    without an entry for the path, the first call returns the transform of
    the first content; the second call returns that same string when it is
    not empty, and otherwise transforms the second content afresh. *)
Theorem memo_forgets_empty_transform :
  forall filePath c1 c2 (memo : Cache),
    let first := transpileCode transpileModule c1 filePath (delete filePath memo) in
    let second := transpileCode transpileModule c2 filePath first.2 in
    first.1 = modifyTranspiledCode (transpileModule c1)
    /\ second.1 = match first.1 with
                  | EmptyString => modifyTranspiledCode (transpileModule c2)
                  | String _ _ => first.1
                  end.
Proof.
  intros filePath c1 c2 memo first second. subst second first.
  assert (Hfirst :
    transpileCode transpileModule c1 filePath (delete filePath memo)
    = (modifyTranspiledCode (transpileModule c1),
       <[filePath := modifyTranspiledCode (transpileModule c1)]> (delete filePath memo))).
  { unfold transpileCode. rewrite lookup_delete_eq. reflexivity. }
  rewrite Hfirst. cbn [fst snd]. split; [reflexivity |].
  unfold transpileCode. rewrite lookup_insert_eq.
  destruct (modifyTranspiledCode (transpileModule c1)); reflexivity.
Qed.

End HashGate.

(** ** The collections read endpoint *)

Section CollectionsRead.
Import JsString Js Collections.

Lemma GET_no_cache browser action name now reg d h es :
  GET browser action name now reg d h (no_cache es)
  = (no_cache es, respond (compute action name reg d)).
Proof.
  unfold GET, no_cache, Redis.isRedisEnabled. cbn [Redis.enabled].
  rewrite andb_false_r. destruct (compute action name reg d); reflexivity.
Qed.

(** C5. What [GET] answers to [action=collection] when no cache stands in
    front: the stored descriptor itself when a collection of that name
    exists; but a missing name and an unknown name both leave as a 500,
    because the [HttpError]s thrown with 400 and 404 are caught by the
    handler's own [catch] and thrown again as 500. *)
Theorem collection_faults_leave_as_500 :
  forall browser name now reg d h es,
    (GET browser (Some "collection") name now reg d h (no_cache es)).2
    = if falsy name then
        Fault 500 ("Failed to process collections request: "
                   +:+ errorMessage (HttpError 400 "Collection name is required"))
      else
        match find_collection (given name) (collections reg) with
        | Some descriptor => Json (JObj descriptor)
        | None =>
            Fault 500 ("Failed to process collections request: "
                       +:+ errorMessage (HttpError 404 "Collection not found"))
        end.
Proof.
  intros. rewrite GET_no_cache. cbn [snd].
  unfold compute. cbn [String.eqb Ascii.eqb Bool.eqb].
  destruct (falsy name); [reflexivity |].
  unfold given. destruct (find_collection _ _); reflexivity.
Qed.

(** C6. A cache tier that is disabled, or whose read fails, leaves the
    response that is computed afresh from the registry and the folder; a
    write that fails changes neither the response nor the store.  The
    actions answered from the registry alone (structure, names and the
    default) always compute a payload, so that such a request succeeds
    whatever the cache tier does. *)
Theorem cache_failure_degrades_to_fresh :
  (forall browser action name now reg d h es,
      GET browser action name now reg d h (no_cache es)
      = (no_cache es, respond (compute action name reg d)))
  /\ (forall browser action name now reg d set_up redis,
      (GET browser action name now reg d {| get_up := false; set_up := set_up |} redis).2
      = respond (compute action name reg d))
  /\ (forall browser action name now reg d get_up redis,
      (GET browser action name now reg d {| get_up := get_up; set_up := false |} redis).1
      = redis
      /\ (GET browser action name now reg d {| get_up := get_up; set_up := false |} redis).2
         = (GET browser action name now reg d {| get_up := get_up; set_up := true |} redis).2)
  /\ (forall name reg d,
      (exists body, compute (Some "structure") name reg d = Ok body)
      /\ (exists body, compute (Some "names") name reg d = Ok body)
      /\ (exists body, compute None name reg d = Ok body)).
Proof.
  split; [exact GET_no_cache |]. split; [| split].
  - intros. unfold GET, Redis.getCache. cbn [get_up].
    destruct (negb browser && _); destruct (compute action name reg d); reflexivity.
  - intros. unfold GET, Redis.setCache. cbn [Collections.set_up Collections.get_up].
    destruct (negb browser && _); [| destruct (compute _ _ _ _); split; reflexivity].
    destruct (Redis.getCache _ _ _ _) as [cached|];
      [destruct (truthy cached) |];
      try (split; reflexivity);
      destruct (compute _ _ _ _); split; reflexivity.
  - intros. repeat split; eexists; reflexivity.
Qed.

Lemma replace_word_other w rep prev c rest :
  starts_with w (String c rest) = false ->
  replace_word w rep prev O (String c rest)
  = String c (replace_word w rep (Some c) O rest).
Proof.
  intros Hw. cbn [replace_word]. unfold word_at. rewrite Hw, andb_false_r.
  reflexivity.
Qed.





Lemma safeParse_cases content :
  safeParseCollectionFile content = Err invalid_format
  \/ exists parsed,
      JSON_parse (sanitize content) = Some parsed /\ is_object parsed = true
      /\ safeParseCollectionFile content = Ok (JObj [("default", parsed)]).
Proof.
  unfold safeParseCollectionFile.
  destruct (JSON_parse (sanitize content)) as [parsed|]; [| left; reflexivity].
  destruct (is_object parsed) eqn:Hobj; [right; eauto | left; reflexivity].
Qed.


Lemma batches_cover fuel (jsFiles : list string) :
  (List.length jsFiles <= fuel)%nat ->
  List.concat (batches fuel jsFiles) = jsFiles.
Proof.
  revert jsFiles. induction fuel as [|fuel IH]; intros jsFiles Hlen.
  - destruct jsFiles; [reflexivity | cbn in Hlen; lia].
  - destruct jsFiles as [|x rest]; [reflexivity |].
    cbn [batches List.concat]. rewrite IH.
    + apply take_drop.
    + rewrite length_drop. cbn in *. unfold BATCH_SIZE. lia.
Qed.



End CollectionsRead.

(** ** The partial update of a category *)

Section CategoryUpdate.
Import Js Categories.

Variable categoryId : option value.
Variable updates : Updates.

(** Induction on a category with the hypothesis for each subcategory. *)
Lemma category_ind' (P : category -> Prop) :
  (forall props, P (Category props None)) ->
  (forall props cats, Forall (fun kc => P kc.2) cats -> P (Category props (Some cats))) ->
  forall c, P c.
Proof.
  intros Hleaf Hnode. fix IH 1. intros [props [cats|]]; [| apply Hleaf].
  apply Hnode. induction cats as [|[key c] cats IHcats]; constructor.
  - apply IH.
  - exact IHcats.
Qed.

Lemma untouched_app l1 l2 :
  untouched categoryId l1 -> untouched categoryId l2 -> untouched categoryId (l1 ++ l2).
Proof.
  intros H1 H2 path props Hin. apply in_app_or in Hin as [Hin | Hin]; eauto.
Qed.

Lemma merged_first_prefix pre old result :
  untouched categoryId pre ->
  merged_first categoryId updates old result ->
  merged_first categoryId updates (pre ++ old) (option_map (app pre) result).
Proof.
  intros Hpre. destruct result as [new|]; cbn [merged_first option_map].
  - intros (before & path & props & subs & after & -> & Hb & Hid & ->).
    exists (pre ++ before), path, props, subs, after.
    rewrite <- !app_assoc. repeat split; auto using untouched_app.
  - intros Hold. apply untouched_app; assumption.
Qed.

Lemma merged_first_suffix post old result :
  (result = None -> untouched categoryId post) ->
  merged_first categoryId updates old result ->
  merged_first categoryId updates (old ++ post)
    (option_map (fun new => new ++ post) result).
Proof.
  intros Hpost. destruct result as [new|]; cbn [merged_first option_map].
  - intros (before & path & props & subs & after & -> & Hb & Hid & ->).
    exists before, path, props, subs, (after ++ post).
    rewrite <- !app_assoc. repeat split; auto.
  - intros Hold. apply untouched_app; auto.
Qed.

Lemma first_updated_listing (cats : tree) path :
  Forall (fun kc => forall path',
              merged_first categoryId updates (flattenNode path' kc.2)
                (option_map (flattenNode path') (updateNode categoryId updates kc.2)))
         cats ->
  merged_first categoryId updates (flatten path cats)
    (option_map (flatten path) (first_updated (updateNode categoryId updates) cats)).
Proof.
  induction 1 as [|[key c] cats Hc _ IH]; [intros ? ? [] |].
  cbn [first_updated]. specialize (Hc (path ++ [key])). cbn [snd] in Hc.
  destruct (updateNode categoryId updates c) as [c'|].
  - apply (merged_first_suffix (flatten path cats)) in Hc; [exact Hc | discriminate].
  - cbn [option_map] in Hc.
    apply (merged_first_prefix (flattenNode (path ++ [key]) c)) in IH; [| exact Hc].
    destruct (first_updated _ cats) as [rest'|]; exact IH.
Qed.

Lemma updateNode_listing c :
  forall path,
    merged_first categoryId updates (flattenNode path c)
      (option_map (flattenNode path) (updateNode categoryId updates c)).
Proof.
  induction c as [props | props cats IH] using category_ind'; intros path;
    cbn [updateNode]; destruct (id_is categoryId props) eqn:Hid.
  - exists [], path, props, None, []. rewrite !app_nil_r.
    repeat split; auto. intros ? ? [].
  - intros p q [Heq | []]. injection Heq as _ <-. exact Hid.
  - exists [], path, props, (Some cats), []. rewrite !app_nil_r.
    repeat split; auto. intros ? ? [].
  - pose proof (first_updated_listing cats path IH) as Hl.
    apply (merged_first_prefix [(path, props)]) in Hl.
    + destruct (first_updated _ cats) as [cats'|]; exact Hl.
    + intros p q [Heq | []]. injection Heq as _ <-. exact Hid.
Qed.

Lemma updateCategory_listing (cats : tree) :
  merged_first categoryId updates (flatten [] cats)
    (option_map (flatten []) (updateCategory categoryId updates cats)).
Proof.
  apply first_updated_listing. apply Forall_forall. intros kc _. apply updateNode_listing.
Qed.

End CategoryUpdate.

Section CategoryPut.
Import Js Categories.


End CategoryPut.

(** ** Instances on the sample inputs *)

Lemma hash_gate_decides_witness :
  Compile.compileFile Samples.transpiler "a.ts" "/src" "/out" 40 Samples.world
  = Ok Samples.world.
Proof.
  apply (proj2 (hash_gate_decides Samples.transpiler)
           "a.ts" "/src" "/out" 40 Samples.world Samples.source Samples.artifact).
  - vm_compute. reflexivity.
  - vm_compute. reflexivity.
  - vm_compute. reflexivity.
  - vm_compute. discriminate.
Defined.




(** The memo on an empty first transform: with a compiler that leaves plain
    JavaScript as it is, an empty source followed by a module at the same
    path yields the empty string and then the module, not the empty string
    twice. *)
Example memo_misses_after_empty_source :
  let first := Compile.transpileCode Samples.transpiler "" "/src/a.ts" ∅ in
  let second :=
    Compile.transpileCode Samples.transpiler "export default {};" "/src/a.ts" first.2 in
  (first.1, second.1) = ("", "export default {};").
Proof. vm_compute. reflexivity. Qed.

(** What the path-keyed memo means for a pass: the artifact written for an
    edited source carries the hash of the new content in front of the
    transform of the old one. *)
Example recompiled_artifact_keeps_memoized_body :
  match Compile.compileFile Samples.transpiler "a.ts" "/src" "/out" 40
          Samples.edited_world_after_pass with
  | Ok w' => Compile.content <$> Compile.files w' !! "/out/a.js"
  | Err _ => None
  end
  = Some ("// " +:+ MD5.md5 "export default { a: 1 };" +:+ Compile.nl
               +:+ "export default {};").
Proof. vm_compute. reflexivity. Qed.

(** * Further properties of the code *)

(** ** Strings *)

Section Strings.
Import JsString.

Lemma length_append a b :
  String.length (a +:+ b) = (String.length a + String.length b)%nat.
Proof. induction a as [|c a IH]; [reflexivity |]. rewrite append_String. cbn. now rewrite IH. Qed.

Lemma append_empty_r a : a +:+ "" = a.
Proof. induction a as [|c a IH]; [reflexivity |]. rewrite append_String. now rewrite IH. Qed.

Lemma append_assoc a b c : (a +:+ b) +:+ c = a +:+ (b +:+ c).
Proof.
  induction a as [|x a IH]; [reflexivity |]. rewrite !append_String. now rewrite IH.
Qed.

Lemma slice_from_append a b n :
  slice_from (String.length a + n) (a +:+ b) = slice_from n b.
Proof. induction a as [|c a IH]; [reflexivity |]. rewrite append_String. exact IH. Qed.

Lemma slice_from_all s : slice_from (String.length s) s = "".
Proof. induction s as [|c s IH]; [reflexivity | exact IH]. Qed.

Lemma ends_with_append suffix p s :
  (String.length suffix <= String.length s)%nat ->
  ends_with suffix (p +:+ s) = ends_with suffix s.
Proof.
  intros Hlen. unfold ends_with. rewrite length_append.
  replace (String.length p + String.length s - String.length suffix)%nat
    with (String.length p + (String.length s - String.length suffix))%nat by lia.
  rewrite slice_from_append.
  destruct (Nat.leb_spec (String.length suffix) (String.length s)); [| lia].
  destruct (Nat.leb_spec (String.length suffix) (String.length p + String.length s));
    [reflexivity | lia].
Qed.

Lemma ends_with_length suffix s :
  ends_with suffix s = true -> (String.length suffix <= String.length s)%nat.
Proof.
  unfold ends_with. intros H. apply andb_true_iff in H as [H _].
  now apply Nat.leb_le.
Qed.

Lemma substring_slice k s : substring 0 k s +:+ slice_from k s = s.
Proof.
  revert s. induction k as [|k IH]; intros [|c s]; try reflexivity.
  cbn [substring slice_from]. rewrite append_String. now rewrite IH.
Qed.

Lemma ends_with_split suffix s :
  ends_with suffix s = true ->
  s = substring 0 (String.length s - String.length suffix) s +:+ suffix.
Proof.
  unfold ends_with. intros H. apply andb_true_iff in H as [_ H].
  apply String.eqb_eq in H.
  pose proof (substring_slice (String.length s - String.length suffix) s) as E.
  rewrite H in E. symmetry. exact E.
Qed.

Lemma append_inj_l a x y : a +:+ x = a +:+ y -> x = y.
Proof.
  induction a as [|c a IH]; [auto |]. rewrite !append_String.
  intros H. injection H as H. auto.
Qed.

Lemma append_inj_r s a b : a +:+ s = b +:+ s -> a = b.
Proof.
  revert b. induction a as [|c a IH]; intros [|d b] H.
  - reflexivity.
  - apply (f_equal String.length) in H. rewrite !length_append in H. cbn in H. lia.
  - apply (f_equal String.length) in H. rewrite !length_append in H. cbn in H. lia.
  - rewrite !append_String in H. injection H as -> H. f_equal. auto.
Qed.

End Strings.

(** ** The scanner and the pass of compile.ts *)

Section Scanner.
Import JsString Compile.

(** Induction on an entry with the hypothesis for the entries below it. *)
Lemma dirent_ind' (P : dirent -> Prop) :
  (forall name, P (RegularFile name)) ->
  (forall name entries, Forall P entries -> P (Directory name entries)) ->
  (forall name message, P (Unreadable name message)) ->
  (forall name, P (Special name)) ->
  forall e, P e.
Proof.
  intros Hfile Hdir Hun Hsp. fix IH 1. intros [name | name entries | name message | name];
    [apply Hfile | | apply Hun | apply Hsp].
  apply Hdir. induction entries as [|e entries IHentries]; constructor.
  - apply IH.
  - exact IHentries.
Qed.





Lemma blocked_fails entries :
  blocked entries -> forall subdir, exists m, scan_each (scan subdir) entries = Err m.
Proof.
  induction 1 as [name message rest | name entries rest _ IH | e rest _ IH]; intros subdir;
    cbn [scan_each scan].
  - eexists. reflexivity.
  - destruct (IH (relative subdir name)) as [m ->]. eexists. reflexivity.
  - destruct (scan subdir e) as [subFiles|m]; [| eexists; reflexivity]. cbn [bind].
    destruct (IH subdir) as [m ->]. eexists. reflexivity.
Qed.

Lemma fails_blocked_each scan entries :
  Forall (fun e => forall m, scan e = Err m -> blocked [e]) entries ->
  forall m, scan_each scan entries = Err m -> blocked entries.
Proof.
  induction 1 as [|e entries He _ IH]; intros m; cbn [scan_each]; [discriminate |].
  destruct (scan e) as [subFiles|m'] eqn:Hscan.
  - cbn [bind]. destruct (scan_each scan entries) as [rest|m'']; [discriminate |].
    intros _. apply blocked_later. eapply IH. reflexivity.
  - intros _. specialize (He m' eq_refl).
    inversion He as [? ? ? | ? ? ? Hb | ? ? Hb]; subst.
    + apply blocked_here.
    + apply blocked_below, Hb.
    + inversion Hb.
Qed.

Lemma fails_blocked e :
  forall subdir m, scan subdir e = Err m -> blocked [e].
Proof.
  induction e as [name | name entries IH | name message | name] using dirent_ind';
    intros subdir m; cbn [scan]; try discriminate.
  - intros H. apply blocked_below.
    destruct (scan_each _ entries) as [files|m'] eqn:Heach; [discriminate |].
    eapply fails_blocked_each; [| exact Heach].
    eapply Forall_impl; [exact IH |]. intros e He m''. apply He.
  - intros _. apply blocked_here.
Qed.


(** X2. The scan fails exactly when a directory somewhere under the root
    cannot be read; files of other kinds and other names never make it
    fail. *)
Theorem scanner_fails_only_on_unreadable_directory :
  forall entries,
    (exists m, getTypescriptFiles (Ok entries) = Err m) <-> blocked entries.
Proof.
  intros entries. cbn [getTypescriptFiles]. split.
  - intros [m H]. destruct (scan_each (scan "") entries) as [files|m'] eqn:Heach;
      [discriminate |].
    eapply fails_blocked_each; [| exact Heach].
    apply Forall_forall. intros e _ m''. apply fails_blocked.
  - intros Hb. destruct (blocked_fails entries Hb "") as [m ->]. eexists. reflexivity.
Qed.

End Scanner.

Section ArtifactPaths.
Import JsString Compile.

Lemma ts_to_js_stem file :
  ends_with ".ts" file = true ->
  exists stem, file = stem +:+ ".ts" /\ ts_to_js file = stem +:+ ".js".
Proof.
  intros H. unfold ts_to_js. rewrite H.
  exists (substring 0 (String.length file - 3) file). split; [| reflexivity].
  apply (ends_with_split ".ts" file H).
Qed.

Lemma tsPath_ends_ts srcFolder file :
  ends_with ".ts" file = true -> ends_with ".ts" (tsPath srcFolder file) = true.
Proof.
  intros H. unfold tsPath, path_join. pose proof (ends_with_length _ _ H) as Hlen.
  rewrite ends_with_append by (rewrite length_append; cbn in *; lia).
  rewrite ends_with_append by exact Hlen. exact H.
Qed.

Lemma jsPath_ends_js destFolder file :
  ends_with ".ts" file = true ->
  ends_with ".js" (jsPath destFolder file) = true
  /\ ends_with ".ts" (jsPath destFolder file) = false.
Proof.
  intros H. destruct (ts_to_js_stem file H) as (stem & _ & Hjs).
  unfold jsPath, path_join. rewrite Hjs.
  split.
  - rewrite ends_with_append by (rewrite !length_append; cbn; lia).
    rewrite ends_with_append by (rewrite !length_append; cbn; lia).
    rewrite ends_with_append by (cbn; lia). reflexivity.
  - rewrite ends_with_append by (rewrite !length_append; cbn; lia).
    rewrite ends_with_append by (rewrite !length_append; cbn; lia).
    rewrite ends_with_append by (cbn; lia). reflexivity.
Qed.

Lemma jsPath_not_tsPath srcFolder destFolder f g :
  ends_with ".ts" f = true -> ends_with ".ts" g = true ->
  jsPath destFolder f <> tsPath srcFolder g.
Proof.
  intros Hf Hg Heq. destruct (jsPath_ends_js destFolder f Hf) as [_ Hno].
  rewrite Heq, (tsPath_ends_ts srcFolder g Hg) in Hno. discriminate.
Qed.

Lemma jsPath_inj destFolder f g :
  ends_with ".ts" f = true -> ends_with ".ts" g = true ->
  jsPath destFolder f = jsPath destFolder g -> f = g.
Proof.
  intros Hf Hg. destruct (ts_to_js_stem f Hf) as (sf & -> & Hjf).
  destruct (ts_to_js_stem g Hg) as (sg & -> & Hjg).
  unfold jsPath, path_join. rewrite Hjf, Hjg. intros H.
  apply append_inj_l, append_inj_l, append_inj_r in H. now subst.
Qed.

(** X3. No two sources that end in [.ts] share an artifact path, and the
    artifact path of one is never the path of a source: a pass cannot
    overwrite a source, nor one artifact with another. *)
Theorem artifact_paths_never_collide :
  forall srcFolder destFolder f g,
    ends_with ".ts" f = true ->
    ends_with ".ts" g = true ->
    jsPath destFolder f <> tsPath srcFolder g
    /\ (jsPath destFolder f = jsPath destFolder g -> f = g)
    /\ ends_with ".js" (jsPath destFolder f) = true.
Proof.
  intros srcFolder destFolder f g Hf Hg. split; [| split].
  - apply jsPath_not_tsPath; assumption.
  - apply jsPath_inj; assumption.
  - apply jsPath_ends_js, Hf.
Qed.

End ArtifactPaths.

Section CompilePass.
Import JsString Compile.

Variable transpileModule : string -> string.

Lemma compileFile_source file srcFolder destFolder now w source :
  files w !! tsPath srcFolder file = Some source ->
  compileFile transpileModule file srcFolder destFolder now w
  = Ok (if stale file srcFolder destFolder source w
        then compiled transpileModule file srcFolder destFolder now source w else w).
Proof.
  intros Hts. unfold compileFile, stale, compiled, tsPath, jsPath in *.
  rewrite shouldRecompile_eq, Hts.
  destruct (match files w !! _ with Some _ => _ | None => _ end); cbn [bind rethrow negb];
    [| reflexivity].
  unfold readFile. rewrite Hts. cbn [bind].
  destruct (transpileCode _ _ _ _) as [code cache']. reflexivity.
Qed.

Lemma compileFile_no_source file srcFolder destFolder now w :
  files w !! tsPath srcFolder file = None ->
  compileFile transpileModule file srcFolder destFolder now w
  = match files w !! jsPath destFolder file with
    | Some _ => Ok w
    | None =>
        Err (("Failed to compile " +:+ file +:+ ": ") +:+ enoent (tsPath srcFolder file))
    end.
Proof.
  intros Hts. unfold compileFile, tsPath, jsPath in *. rewrite shouldRecompile_eq, Hts.
  destruct (files w !! path_join destFolder (ts_to_js file));
    cbn [bind rethrow negb]; [reflexivity |].
  unfold readFile. rewrite Hts. reflexivity.
Qed.

Lemma transpileCode_cache content filePath (memo : Cache) :
  (transpileCode transpileModule content filePath memo).2 !! filePath
  = Some (transpileCode transpileModule content filePath memo).1
  /\ forall q, q <> filePath ->
       (transpileCode transpileModule content filePath memo).2 !! q = memo !! q.
Proof.
  unfold transpileCode. destruct (memo !! filePath) as [[|c code]|] eqn:Hm; cbn [fst snd].
  - split; [apply lookup_insert_eq |]. intros q Hq. now apply lookup_insert_ne.
  - split; [exact Hm | reflexivity].
  - split; [apply lookup_insert_eq |]. intros q Hq. now apply lookup_insert_ne.
Qed.

(** X4. A call of [compileFile] that succeeds changes no file but the
    artifact of its own source and no memo entry but the one of its own
    source path, and afterwards the memo holds an entry for every path it
    held one for before. *)
Theorem compileFile_touches_only_its_artifact :
  forall file srcFolder destFolder now w w',
    compileFile transpileModule file srcFolder destFolder now w = Ok w' ->
    (forall p, p <> jsPath destFolder file -> files w' !! p = files w !! p)
    /\ (forall q, q <> tsPath srcFolder file -> cache w' !! q = cache w !! q)
    /\ (forall q, cache w !! q <> None -> cache w' !! q <> None).
Proof.
  intros file srcFolder destFolder now w w' H.
  destruct (files w !! tsPath srcFolder file) as [source|] eqn:Hts.
  - rewrite (compileFile_source _ _ _ _ _ source Hts) in H. injection H as <-.
    destruct (stale _ _ _ _ _); [| repeat split; auto].
    unfold compiled. cbn [files cache].
    destruct (transpileCode_cache (content source) (tsPath srcFolder file) (cache w))
      as [Hhere Hother].
    split; [| split].
    + intros p Hp. now apply lookup_insert_ne.
    + exact Hother.
    + intros q Hq. destruct (String.eqb_spec q (tsPath srcFolder file)) as [-> | Hne].
      * rewrite Hhere. discriminate.
      * now rewrite Hother.
  - rewrite (compileFile_no_source _ _ _ _ _ Hts) in H.
    destruct (files w !! jsPath destFolder file); [| discriminate].
    injection H as <-. repeat split; auto.
Qed.

(** X5. When the source is gone, [compileFile] keeps an existing artifact
    as it is and reports success; with no artifact either, it fails with
    the message of the read that found no file. *)
Theorem compileFile_without_source :
  forall file srcFolder destFolder now w,
    files w !! tsPath srcFolder file = None ->
    (files w !! jsPath destFolder file <> None ->
     compileFile transpileModule file srcFolder destFolder now w = Ok w)
    /\ (files w !! jsPath destFolder file = None ->
        compileFile transpileModule file srcFolder destFolder now w
        = Err (("Failed to compile " +:+ file +:+ ": ")
               +:+ ("ENOENT: no such file or directory, open '"
                    +:+ path_join srcFolder file +:+ "'"))).
Proof.
  intros file srcFolder destFolder now w Hts.
  rewrite (compileFile_no_source _ _ _ _ _ Hts). split.
  - destruct (files w !! jsPath destFolder file); [reflexivity | contradiction].
  - intros ->. reflexivity.
Qed.


Lemma fresh_is_kept file srcFolder destFolder now w :
  fresh srcFolder destFolder file (files w) ->
  compileFile transpileModule file srcFolder destFolder now w = Ok w.
Proof.
  intros (source & artifact & Hs & Ha & Hh & Hm).
  rewrite (compileFile_source _ _ _ _ _ source Hs). unfold stale. rewrite Ha, Hh.
  replace (differs _ _) with false by (symmetry; apply differs_false_iff; reflexivity).
  replace (mtime artifact <? mtime source) with false by (symmetry; apply Z.ltb_ge; exact Hm).
  reflexivity.
Qed.


Variable clock : string -> Z.

Lemma compile_each_cons file paths srcFolder destFolder w w' :
  compileFile transpileModule file srcFolder destFolder (clock file) w = Ok w' ->
  compile_each transpileModule clock (file :: paths) srcFolder destFolder w = compile_each transpileModule clock paths srcFolder destFolder w'.
Proof. intros H. unfold compile_each. cbn [fold_left fst snd]. now rewrite H. Qed.


Lemma pass_keeps_fresh paths srcFolder destFolder w :
  (forall f, In f paths -> fresh srcFolder destFolder f (files w)) ->
  compile_each transpileModule clock paths srcFolder destFolder w = (w, []).
Proof.
  induction paths as [|file paths IH]; intros Hall; [reflexivity |].
  rewrite (compile_each_cons _ _ _ _ _ w).
  - apply IH. intros f Hf. apply Hall. now right.
  - apply fresh_is_kept, Hall. now left.
Qed.

End CompilePass.

Section CompileRun.
Import JsString Compile.


Lemma compile_scanned transpileModule clock destFolder srcFolder root paths w :
  destFolder <> "" -> srcFolder <> "" ->
  getTypescriptFiles root = Ok paths ->
  compile transpileModule clock (Some destFolder) (Some srcFolder) root w
  = let '(w', failures) := compile_each transpileModule clock paths srcFolder destFolder w in
    (w', destFolder :: outputDirectories paths destFolder,
     match failures with
     | [] => Ok tt
     | m :: _ => Err (COMPILE_FAILED +:+ m)
     end).
Proof.
  intros Hd Hs Hscan. unfold compile.
  destruct (String.eqb_spec destFolder ""); [contradiction |].
  destruct (String.eqb_spec srcFolder ""); [contradiction |].
  cbn [orb]. rewrite Hscan. reflexivity.
Qed.


(** X7. A pass that finds every scanned source with an artifact that
    carries its hash and is not older settles without error and leaves the
    files and the memo exactly as they were, whatever the clock and the
    compiler. *)
Theorem pass_over_fresh_artifacts_writes_nothing :
  forall transpileModule clock destFolder srcFolder root paths w,
    destFolder <> "" -> srcFolder <> "" ->
    getTypescriptFiles root = Ok paths ->
    (forall f, In f paths -> fresh srcFolder destFolder f (files w)) ->
    (compile transpileModule clock (Some destFolder) (Some srcFolder) root w).1
    = (w, destFolder :: outputDirectories paths destFolder)
    /\ (compile transpileModule clock (Some destFolder) (Some srcFolder) root w).2 = Ok tt.
Proof.
  intros transpileModule clock destFolder srcFolder root paths w Hd Hs Hscan Hfresh.
  rewrite (compile_scanned _ _ _ _ _ paths) by assumption.
  rewrite (pass_keeps_fresh transpileModule clock paths srcFolder destFolder w Hfresh).
  split; reflexivity.
Qed.

(** X8. When a folder is not specified, or the scan of the sources fails,
    [compile] rejects with a message that begins 'Collection compilation
    failed: ' and no file is compiled: the files and the memo are as they
    were. *)
Theorem compile_fails_before_any_file :
  forall transpileModule clock collectionsFolderJS collectionsFolderTS root w,
    (collectionsFolderJS = None \/ collectionsFolderJS = Some ""
     \/ collectionsFolderTS = None \/ collectionsFolderTS = Some ""
     \/ exists m, getTypescriptFiles root = Err m) ->
    exists dirs m,
      compile transpileModule clock collectionsFolderJS collectionsFolderTS root w
      = (w, dirs, Err ("Collection compilation failed: " +:+ m)).
Proof.
  intros transpileModule clock js ts root w H. unfold compile, COMPILE_FAILED.
  destruct js as [destFolder|]; [| eexists _, _; reflexivity].
  destruct ts as [srcFolder|]; [| eexists _, _; reflexivity].
  destruct (String.eqb destFolder "" || String.eqb srcFolder "") eqn:Hempty;
    [eexists _, _; reflexivity |].
  apply orb_false_iff in Hempty as [Hd Hs].
  apply String.eqb_neq in Hd, Hs.
  destruct H as [H | [H | [H | [H | [m H]]]]]; try discriminate; try congruence.
  rewrite H. eexists _, _; reflexivity.
Qed.

Lemma existsb_eqb_In x seen : existsb (String.eqb x) seen = true <-> In x seen.
Proof.
  rewrite existsb_exists. split.
  - intros (y & Hin & Heq). apply String.eqb_eq in Heq. now subst.
  - intros Hin. exists x. split; [exact Hin | apply String.eqb_refl].
Qed.

Lemma unique_In l : forall seen x, In x (unique seen l) <-> In x l /\ ~ In x seen.
Proof.
  induction l as [|y l IH]; intros seen x; cbn [unique In]; [tauto |].
  destruct (existsb (String.eqb y) seen) eqn:Hseen.
  - apply existsb_eqb_In in Hseen. rewrite IH. split.
    + intros [H1 H2]. auto.
    + intros [[<- | H1] H2]; [contradiction | auto].
  - assert (Hy : ~ In y seen).
    { intros H. apply existsb_eqb_In in H. congruence. }
    cbn [In]. rewrite IH. cbn [In]. split.
    + intros [<- | [H1 H2]]; auto.
    + intros [[<- | H1] H2]; [now left |].
      destruct (String.eqb_spec y x) as [-> | Hne]; [now left |]. right. tauto.
Qed.

Lemma unique_NoDup l : forall seen, List.NoDup (unique seen l).
Proof.
  induction l as [|y l IH]; intros seen; cbn [unique]; [constructor |].
  destruct (existsb (String.eqb y) seen); [apply IH |].
  constructor; [| apply IH]. rewrite unique_In. cbn [In]. tauto.
Qed.

(** X29. [createOutputDirectories] makes, once each, exactly the
    directories under the output folder that mirror the directory of a
    scanned file lying in a sub-directory; files at the root ask for
    none. *)
Theorem output_directories_mirror_the_sources :
  forall paths destFolder,
    List.NoDup (outputDirectories paths destFolder)
    /\ forall dir,
        In dir (outputDirectories paths destFolder)
        <-> exists f,
            In f paths /\ dirname f <> "." /\ dir = path_join destFolder (dirname f).
Proof.
  intros paths destFolder. unfold outputDirectories.
  set (dirs := List.filter (fun dir => negb (String.eqb dir ".")) (map dirname paths)).
  split.
  - pose proof (unique_NoDup dirs []) as Hnd.
    induction Hnd as [|d l Hd _ IH]; cbn [map]; constructor; [| exact IH].
    rewrite in_map_iff. intros (d' & Heq & Hin).
    unfold path_join in Heq. apply append_inj_l, append_inj_l in Heq. now subst.
  - intros dir. rewrite in_map_iff. split.
    + intros (d & <- & Hin). apply unique_In in Hin as [Hin _].
      apply filter_In in Hin as [Hin Hne]. apply in_map_iff in Hin as (f & <- & Hf).
      exists f. repeat split; auto.
      intros Heq. rewrite Heq in Hne. discriminate.
    + intros (f & Hf & Hne & ->). exists (dirname f). split; [reflexivity |].
      apply unique_In. split; [| intros []]. apply filter_In. split.
      * apply in_map, Hf.
      * destruct (String.eqb_spec (dirname f) "."); [contradiction | reflexivity].
Qed.

End CompileRun.

(** ** The orchestrator *)

Section OrchestratorMore.
Import CollectionCompile.

(** X9. A pass that fails still starts the cooldown: after a forced pass
    whose compilation rejects, which answers 500 and makes no call to the
    registry, a non-forced trigger less than the cooldown later is skipped
    without a retry. *)
Theorem failed_pass_starts_the_cooldown :
  forall t0 t clock m u t' clock' o',
    t' - t < COMPILE_COOLDOWN ->
    let failing := {| compile_outcome := Err m; update_outcome := u |} in
    POST t clock failing (open t0)
    = (open t, [CallCompile], Fault 500 ("Compilation process failed: " +:+ m))
    /\ GET false t' clock' o' (POST t clock failing (open t0)).1.1
       = (open t, [], skipped).
Proof.
  intros t0 t clock m u t' clock' o' Hcool failing.
  assert (Hpost : POST t clock failing (open t0)
                  = (open t, [CallCompile], Fault 500 (failed m))) by reflexivity.
  split; [exact Hpost |]. rewrite Hpost. cbn [fst].
  unfold GET, GET_enter. cbn [isCompiling lastCompileTime open negb andb].
  destruct (Z.ltb_spec (t' - t) COMPILE_COOLDOWN) as [_|]; [reflexivity | lia].
Qed.

(** X10. A forced GET and a POST are the same pass: from any state they
    leave the same state and make the same calls, and from an open gate
    they call the compiler first and the registry, with a full reload, only
    when the compilation has resolved. *)
Theorem forced_get_is_post :
  forall currentTime clock o st,
    (GET true currentTime clock o st).1 = (POST currentTime clock o st).1
    /\ is_fault (GET true currentTime clock o st).2
       = is_fault (POST currentTime clock o st).2
    /\ forall t,
        (POST currentTime clock o (open t)).1
        = (open currentTime,
           match compile_outcome o with
           | Ok _ => [CallCompile; CallUpdateCollections true]
           | Err _ => [CallCompile]
           end).
Proof.
  intros currentTime clock o st. split; [| split].
  - unfold GET, POST, GET_enter, POST_enter. destruct (isCompiling st); [reflexivity |].
    cbn [negb andb]. destruct (handleCompilation _ _ _ _) as [calls [[]|m]]; reflexivity.
  - unfold GET, POST, GET_enter, POST_enter. destruct (isCompiling st); [reflexivity |].
    cbn [negb andb]. destruct (handleCompilation _ _ _ _) as [calls [[]|m]]; reflexivity.
  - intros t. unfold POST, POST_enter, handleCompilation. cbn [isCompiling open orb].
    destruct (compile_outcome o) as [[]|m]; [| reflexivity].
    destruct (update_outcome o) as [[]|m]; reflexivity.
Qed.

(** X11. With the gate open, a non-forced GET is skipped exactly when less
    than 60000 ms have passed since [lastCompileTime]: at 60000 ms sharp
    the trigger takes the gate. *)
Theorem cooldown_bound_is_strict :
  forall currentTime clock o t,
    (GET false currentTime clock o (open t)).2 = skipped
    <-> currentTime - t < 60000.
Proof.
  intros currentTime clock o t. unfold GET, GET_enter.
  cbn [isCompiling lastCompileTime open negb andb]. unfold COMPILE_COOLDOWN.
  destruct (Z.ltb_spec (currentTime - t) 60000) as [Hlt | Hge].
  - split; [intros _; exact Hlt | reflexivity].
  - split; [| lia]. destruct (handleCompilation _ _ _ _) as [calls [[]|m]]; discriminate.
Qed.

Lemma step_conserves s e :
  (List.length (sent (step s e)) + List.length (pending (step s e)))%nat
  = (List.length (sent s) + List.length (pending s) + requests [e])%nat.
Proof.
  destruct e as [m currentTime clock | i o]; cbn [step requests List.filter List.length].
  - destruct (enter m currentTime (state s)); cbn [sent pending];
      rewrite length_app; cbn; lia.
  - destruct (pending s !! i) as [p|] eqn:Hi; [| lia].
    destruct (handleCompilation _ _ _ _) as [calls r].
    destruct (resume _ _ _ _) as [st2 resp]. cbn [sent pending].
    rewrite length_app, length_delete by eauto. cbn.
    apply lookup_lt_Some in Hi. lia.
Qed.

Lemma requests_cons e es : requests (e :: es) = (requests [e] + requests es)%nat.
Proof. unfold requests. cbn. destruct e; reflexivity. Qed.

Lemma fold_conserves es s :
  (List.length (sent (fold_left step es s)) + List.length (pending (fold_left step es s)))%nat
  = (List.length (sent s) + List.length (pending s) + requests es)%nat.
Proof.
  revert s. induction es as [|e es IH]; intros s; [cbn; lia |].
  cbn [fold_left]. rewrite IH, step_conserves, (requests_cons e es). lia.
Qed.

(** X12. No request is lost or answered twice: after any sequence of
    requests and settlements, the responses sent and the handlers still
    suspended together number the requests received (and, the gate being
    single-flight, at most one of them is suspended). *)
Theorem every_request_is_answered_once :
  forall es,
    (List.length (sent (run es)) + List.length (pending (run es)))%nat = requests es
    /\ (List.length (pending (run es)) <= 1)%nat.
Proof.
  intros es. split.
  - unfold run. rewrite fold_conserves. reflexivity.
  - destruct (run_gate_inv es) as [[_ ->] | [_ [p ->]]]; cbn; lia.
Qed.

End OrchestratorMore.

(** ** The collections endpoints *)

Section CollectionsMore.
Import JsString Js Collections.

Lemma safeParse_object content payload :
  safeParseCollectionFile content = Ok payload -> is_object payload = true.
Proof.
  destruct (safeParse_cases content) as [-> | (parsed & _ & _ & ->)]; [discriminate |].
  intros H. injection H as <-. reflexivity.
Qed.

Lemma compute_object action name reg d body :
  compute action name reg d = Ok body -> is_object body = true.
Proof.
  unfold compute.
  destruct (String.eqb _ "structure"); [intros H; injection H as <-; reflexivity |].
  destruct (String.eqb _ "files").
  { destruct (all _ _); cbn [bind]; [| discriminate]. intros H; injection H as <-; reflexivity. }
  destruct (String.eqb _ "file").
  { destruct (falsy name); [discriminate |].
    destruct (String.eqb _ ".."); [discriminate |].
    destruct (_ || _); [discriminate |].
    destruct (read _ _); cbn [bind]; [| discriminate]. apply safeParse_object. }
  destruct (String.eqb _ "names"); [intros H; injection H as <-; reflexivity |].
  destruct (String.eqb _ "collection").
  { destruct (falsy name); [discriminate |].
    destruct (find_collection _ _); [| discriminate].
    intros H; injection H as <-; reflexivity. }
  intros H; injection H as <-; reflexivity.
Qed.

Lemma object_truthy v : is_object v = true -> truthy v = true.
Proof. destruct v; cbn; congruence. Qed.

(** X13. The cache key does not separate the action from the name: an
    action that spells another action, a colon and a name has the key of
    that action with that name. *)
Theorem cache_key_confuses_action_and_name :
  forall action name,
    action <> "" -> name <> "" ->
    cacheKey (Some (action +:+ ":" +:+ name)) None = cacheKey (Some action) (Some name).
Proof.
  intros action name Ha Hn. unfold cacheKey, or_default.
  destruct (String.eqb_spec action ""); [contradiction |].
  destruct (String.eqb_spec name ""); [contradiction |].
  destruct (String.eqb_spec (action +:+ ":" +:+ name) "") as [He | _].
  - apply (f_equal String.length) in He. rewrite !length_append in He.
    destruct action; [contradiction | cbn in He; lia].
  - rewrite append_empty_r. rewrite <- !append_assoc. reflexivity.
Qed.

(** X14. With the cache tier of the specification enabled and healthy, the
    payload a request computes on a miss is what every request with the
    same cache key is answered for the next 300 seconds, whatever the
    registry and the folder have become and whatever action and name that
    request carries. *)
Theorem cached_payload_is_served_for_the_ttl :
  forall action name now reg d h redis body action' name' now' reg' d' h',
    Redis.enabled redis = true ->
    get_up h = true -> set_up h = true -> get_up h' = true ->
    Redis.getCache true (cacheKey action name) now redis = None ->
    compute action name reg d = Ok body ->
    cacheKey action' name' = cacheKey action name ->
    now' < now + 300 ->
    (GET false action name now reg d h redis).2 = Json body
    /\ (GET false action' name' now' reg' d' h'
          (GET false action name now reg d h redis).1).2 = Json body.
Proof.
  intros action name now reg d h redis body action' name' now' reg' d' h'
         Hen Hg Hs Hg' Hmiss Hc Hkey Hnow.
  assert (Hfirst : GET false action name now reg d h redis
                   = (Redis.setCache true (cacheKey action name) body CACHE_TTL now redis,
                      Json body)).
  { unfold GET, Redis.isRedisEnabled. rewrite Hen, Hg, Hs, Hmiss, Hc. reflexivity. }
  rewrite Hfirst. cbn [fst snd]. split; [reflexivity |].
  unfold GET, Redis.isRedisEnabled, Redis.setCache, Redis.getCache.
  cbn [Redis.enabled Redis.entries negb andb]. rewrite Hen, Hg', Hkey, lookup_insert_eq.
  unfold CACHE_TTL. destruct (Z.ltb_spec now' (now + 300)); [| lia].
  rewrite (object_truthy body (compute_object _ _ _ _ _ Hc)). reflexivity.
Qed.

Lemma all_app {A B} (f : A -> result thrown B) xs ys :
  all f (xs ++ ys)
  = try! a := all f xs in try! b := all f ys in Ok (a ++ b).
Proof.
  induction xs as [|x xs IH]; cbn [all app bind].
  - destruct (all f ys); reflexivity.
  - destruct (f x) as [y|t]; [| reflexivity]. cbn [bind]. rewrite IH.
    destruct (all f xs) as [a|t]; [| reflexivity]. cbn [bind].
    destruct (all f ys); reflexivity.
Qed.

Lemma all_batches {A B} (f : A -> result thrown B) (bs : list (list A)) :
  (try! results := all (all f) bs in Ok (List.concat results))
  = all f (List.concat bs).
Proof.
  induction bs as [|b bs IH]; [reflexivity |].
  cbn [all List.concat]. rewrite all_app.
  destruct (all f b) as [ys|t]; [| reflexivity]. cbn [bind].
  rewrite <- IH. destruct (all (all f) bs); reflexivity.
Qed.

(** X15. The batches of 50 of the [files] action do not show in its
    result: it is the list, in the order of the folder, of what each [.js]
    file of the folder parses to, or a fault as soon as one of them cannot
    be read or parsed. *)
Theorem files_action_ignores_batching :
  forall name reg d,
    compute (Some "files") name reg d
    = try! payloads := all (served d) (List.filter (ends_with ".js") (map fst d)) in
      Ok (JArr payloads).
Proof.
  intros name reg d. unfold compute. cbn [String.eqb Ascii.eqb Bool.eqb].
  set (jsFiles := List.filter (ends_with ".js") (map fst d)).
  pose proof (all_batches (served d) (batches (List.length jsFiles) jsFiles)) as H.
  rewrite batches_cover in H by lia. rewrite <- H. unfold processBatch, served.
  destruct (all _ (batches _ _)); reflexivity.
Qed.

Lemma list_ascii_append a b :
  list_ascii_of_string (a +:+ b) = list_ascii_of_string a ++ list_ascii_of_string b.
Proof.
  induction a as [|c a IH]; [reflexivity |]. rewrite append_String. cbn. now rewrite IH.
Qed.

Lemma basename_from_slash_free name :
  forall last cur,
    slash_free last -> slash_free cur -> slash_free (basename_from last cur name).
Proof.
  induction name as [|c name IH]; intros last cur Hl Hc; cbn [basename_from].
  - destruct (String.eqb cur ""); assumption.
  - destruct (Ascii.eqb_spec c "/"%char) as [-> | Hne].
    + apply IH; [destruct (String.eqb cur ""); assumption | intros ? []].
    + apply IH; [assumption |]. intros x Hx. rewrite list_ascii_append in Hx.
      apply in_app_or in Hx as [Hx | [<- | []]]; auto.
Qed.

(** X16. A [file] request that succeeds has read one entry of the
    collections folder itself, the one named by the last segment of the
    name, and that segment holds no path separator: no name reaches a file
    outside the folder. *)
Theorem file_action_stays_in_the_folder :
  forall name reg d payload,
    compute (Some "file") name reg d = Ok payload ->
    (forall c, In c (list_ascii_of_string (basename (given name))) -> c <> "/"%char)
    /\ basename (given name) <> ".."
    /\ exists content,
        entry (basename (given name)) d = Some (Some content)
        /\ safeParseCollectionFile content = Ok payload.
Proof.
  intros name reg d payload. unfold compute. cbn [String.eqb Ascii.eqb Bool.eqb].
  destruct (falsy name); [discriminate |].
  destruct (String.eqb_spec (basename (given name)) ".."); [discriminate |].
  destruct (_ || _); [discriminate |].
  unfold read. destruct (entry _ d) as [[content|]|]; cbn [bind]; try discriminate.
  intros H. split; [| split; [assumption | eauto]].
  apply basename_from_slash_free; intros ? [].
Qed.

(** X17. A POST whose body is not an object with the action 'recompile'
    answers 500, an unknown action included, whose 400 is thrown inside
    the handler's own [try]; it makes no call to the registry and leaves
    the cache as it was. *)
Theorem post_without_recompile_is_a_500 :
  forall browser body up update redis,
    (forall props, body = Ok (JObj props) -> get "action" props <> Some (JStr "recompile")) ->
    exists m, POST browser body up update redis = (redis, [], Fault 500 m).
Proof.
  intros browser body up update redis Hno. unfold POST.
  destruct body as [data|m]; [| eexists; reflexivity].
  destruct data as [| b | m e | s | items | props]; cbn [action_of];
    try (eexists; reflexivity).
  specialize (Hno props eq_refl).
  destruct (get "action" props) as [[| b | m e | action | items | props']|];
    try (eexists; reflexivity).
  destruct (String.eqb_spec action "recompile") as [-> | _]; [contradiction |].
  eexists; reflexivity.
Qed.

Lemma includes_false_head w s : Categories.includes w s = false -> starts_with w s = false.
Proof. destruct s; cbn; intros H; apply orb_false_iff in H as [H _]; exact H. Qed.

Lemma includes_false_tail w c s :
  Categories.includes w (String c s) = false -> Categories.includes w s = false.
Proof. cbn [Categories.includes]. intros H. apply orb_false_iff in H as [_ H]. exact H. Qed.

Lemma replace_word_absent w rep s :
  Categories.includes w s = false ->
  forall prev, replace_word w rep prev O s = s.
Proof.
  induction s as [|c s IH]; intros Hno prev; [reflexivity |].
  rewrite replace_word_other by (apply includes_false_head, Hno).
  rewrite IH by (eapply includes_false_tail, Hno). reflexivity.
Qed.

(** X18. Text in which none of the words [function], [eval], [new] and
    [class] occurs, even as part of a longer word, passes through the
    sanitiser unchanged, so that such a file is served as [JSON.parse]
    reads it. *)
Theorem sanitize_leaves_other_text :
  forall content,
    Categories.includes "function" content = false ->
    Categories.includes "eval" content = false ->
    Categories.includes "new" content = false ->
    Categories.includes "class" content = false ->
    sanitize content = content
    /\ safeParseCollectionFile content
       = match JSON_parse content with
         | Some parsed =>
             if is_object parsed then Ok (JObj [("default", parsed)]) else Err invalid_format
         | None => Err invalid_format
         end.
Proof.
  intros content Hf He Hn Hc.
  assert (Hs : sanitize content = content).
  { unfold sanitize. rewrite (replace_word_absent "function") by exact Hf.
    rewrite (replace_word_absent "eval") by exact He.
    rewrite (replace_word_absent "new") by exact Hn.
    apply replace_word_absent, Hc. }
  split; [exact Hs |]. unfold safeParseCollectionFile. rewrite Hs. reflexivity.
Qed.

End CollectionsMore.

(** ** The categories endpoints *)

Section CategoriesMore.
Import JsString Js Categories.

Lemma has_get k props : has k props = false <-> get k props = None.
Proof.
  induction props as [|[k' v'] props IH]; cbn; [tauto |].
  destruct (String.eqb k k'); cbn; [split; discriminate | exact IH].
Qed.

Lemma get_replace k v k' props :
  get k' (replace k v props)
  = if String.eqb k' k then (if has k props then Some v else None) else get k' props.
Proof.
  induction props as [|[k0 v0] props IH]; cbn [replace get has].
  - destruct (String.eqb k' k); reflexivity.
  - destruct (String.eqb_spec k k0) as [<- | Hne]; cbn [get orb].
    + destruct (String.eqb k' k); reflexivity.
    + rewrite IH. destruct (String.eqb_spec k' k) as [-> | Hne'].
      * destruct (String.eqb_spec k k0); [contradiction | reflexivity].
      * reflexivity.
Qed.

Lemma get_insert_index n k v k' props :
  has k props = false ->
  get k' (insert_index n k v props) = if String.eqb k' k then Some v else get k' props.
Proof.
  induction props as [|[k0 v0] props IH]; cbn [insert_index get has]; intros Hno.
  - reflexivity.
  - apply orb_false_iff in Hno as [Hk Hno].
    destruct (array_index k0) as [n'|]; [destruct (n <? n') |]; cbn [get]; try reflexivity.
    rewrite IH by exact Hno.
    destruct (String.eqb_spec k' k) as [-> | _]; [| reflexivity].
    rewrite Hk. reflexivity.
Qed.

Lemma get_app_one k v k' props :
  has k props = false ->
  get k' (props ++ [(k, v)]) = if String.eqb k' k then Some v else get k' props.
Proof.
  induction props as [|[k0 v0] props IH]; cbn [app get has]; intros Hno.
  - reflexivity.
  - apply orb_false_iff in Hno as [Hk Hno]. rewrite IH by exact Hno.
    destruct (String.eqb_spec k' k) as [-> | _]; [| reflexivity].
    rewrite Hk. reflexivity.
Qed.

Lemma get_set k v k' props :
  get k' (set k v props) = if String.eqb k' k then Some v else get k' props.
Proof.
  unfold set. destruct (has k props) eqn:Hhas.
  - rewrite get_replace, Hhas. reflexivity.
  - destruct (array_index k); [apply get_insert_index | apply get_app_one]; exact Hhas.
Qed.


Lemma untouched_not_updated categoryId updates cats :
  untouched categoryId (flatten [] cats) -> updateCategory categoryId updates cats = None.
Proof.
  intros Hun. pose proof (updateCategory_listing categoryId updates cats) as H.
  destruct (updateCategory categoryId updates cats) as [cats'|]; [| reflexivity].
  cbn [option_map merged_first] in H.
  destruct H as (before & path & props & subs & after & Hold & _ & Hid & _).
  rewrite (Hun path props) in Hid; [discriminate |].
  rewrite Hold. apply in_or_app. right. apply in_or_app. left. now left.
Qed.

(** X20. A PUT for an id that no category of the tree has leaves the tree
    as it was, takes no backup and writes nothing; it answers 500, the 404
    thrown for it being caught by the handler's own [catch]. *)
Theorem put_of_unknown_id_is_a_500 :
  forall JSON_stringify categoryId updates cats io browser_global redis,
    (forall path props,
        In (path, props) (flatten [] cats) -> id_is categoryId props = false) ->
    PUT JSON_stringify categoryId updates cats io browser_global redis
    = (cats, [],
       Fault 500 ("Failed to update category: {" +:+ Collections.quoted "message" +:+ ":"
                  +:+ Collections.quoted "Category not found" +:+ "}")).
Proof.
  intros JSON_stringify categoryId updates cats io browser_global redis Hun.
  unfold PUT. rewrite (untouched_not_updated categoryId updates cats Hun). reflexivity.
Qed.

(** X21. A PUT that has found the category keeps the merge in the
    registry's tree whatever happens next: there is no roll-back.  When
    the backup fails, the tree in memory is the updated one although
    nothing has been written. *)
Theorem put_never_rolls_back :
  forall JSON_stringify categoryId updates cats cats' io browser_global redis,
    updateCategory categoryId updates cats = Some cats' ->
    (PUT JSON_stringify categoryId updates cats io browser_global redis).1.1 = cats'
    /\ forall m, backup io = Err m ->
         PUT JSON_stringify categoryId updates cats io browser_global redis
         = (cats', [BackupCategoryFiles], Fault 500 ("Failed to update category: " +:+ m)).
Proof.
  intros JSON_stringify categoryId updates cats cats' io browser_global redis Hup.
  unfold PUT. rewrite Hup. split.
  - destruct (backup io); [| reflexivity]. destruct (write io); [| reflexivity].
    destruct browser_global; [| reflexivity]. destruct (update io); reflexivity.
  - intros m ->. reflexivity.
Qed.

Lemma starts_with_append_l w a b : starts_with w a = true -> starts_with w (a +:+ b) = true.
Proof.
  revert a. induction w as [|c w IH]; intros a; [reflexivity |].
  destruct a as [|x a]; [discriminate |]. rewrite append_String. cbn [starts_with].
  destruct (Ascii.eqb c x); [apply IH | discriminate].
Qed.

Lemma includes_append_l w a b : includes w a = true -> includes w (a +:+ b) = true.
Proof.
  induction a as [|x a IH]; cbn [includes].
  - rewrite orb_false_r. intros H. destruct w; [| discriminate].
    destruct ("" +:+ b); reflexivity.
  - intros H. rewrite append_String. cbn [includes].
    apply orb_true_iff in H as [H | H].
    + rewrite <- append_String, (starts_with_append_l _ _ _ H). reflexivity.
    + rewrite (IH H). apply orb_true_r.
Qed.

Lemma fileContent_has_marker json :
  includes "export const categoryConfig" (fileContent json) = true.
Proof. unfold fileContent. apply includes_append_l. vm_compute. reflexivity. Qed.

(** X22. The check of the generated content in [saveCategoryFile] can
    never fail: whatever the data, the content holds the declaration, and
    the function goes on to write the whole of it to the categories file. *)
Theorem generated_content_always_passes_its_check :
  forall json write,
    includes "export const categoryConfig" (fileContent json) = true
    /\ (saveCategoryFile json write).1 = [WriteFile categoriesPath (fileContent json)]
    /\ forall JSON_stringify data,
         generateCategoriesFileContent JSON_stringify data = fileContent (JSON_stringify data).
Proof.
  intros json write. split; [apply fileContent_has_marker |]. split; [| reflexivity].
  unfold saveCategoryFile. rewrite fileContent_has_marker. destruct write; reflexivity.
Qed.

(** X23. In a realm with no global [browser], which the module uses
    without importing it, no request to the categories endpoint succeeds:
    GET always answers 500 before it looks at the registry; POST and PUT
    answer 500 as well, and never reload the collections, even when they
    have already written the file. *)
Theorem categories_endpoint_needs_a_global_browser :
  (forall serialise action now cats h redis,
      GET serialise None action now cats h redis
      = (redis, Failure 500 "Failed to fetch categories"))
  /\ (forall JSON_stringify body io redis,
      (exists m, (POST JSON_stringify body io None redis).2 = Failure 500 m)
      /\ ~ In (UpdateCollections true) (POST JSON_stringify body io None redis).1)
  /\ (forall JSON_stringify categoryId updates cats io redis,
      (exists m, (PUT JSON_stringify categoryId updates cats io None redis).2 = Fault 500 m)
      /\ ~ In (UpdateCollections true)
              (PUT JSON_stringify categoryId updates cats io None redis).1.2).
Proof.
  split; [reflexivity |]. split.
  - intros JSON_stringify body io redis. unfold POST.
    destruct body as [data|m]; [| split; [eexists; reflexivity | intros []]].
    destruct (validateCategoryData data); [| split; [eexists; reflexivity | intros []]].
    destruct (backup io);
      [| split; [eexists; reflexivity | intros [H | []]; discriminate]].
    unfold saveCategoryFile. rewrite fileContent_has_marker. cbn [negb].
    destruct (write io); cbn [fst snd];
      (split; [eexists; reflexivity | intros [H | [H | []]]; discriminate]).
  - intros JSON_stringify categoryId updates cats io redis. unfold PUT.
    destruct (updateCategory _ _ _); [| split; [eexists; reflexivity | intros []]].
    destruct (backup io);
      [| split; [eexists; reflexivity | intros [H | []]; discriminate]].
    destruct (write io); cbn [fst snd];
      (split; [eexists; reflexivity | intros [H | [H | []]]; discriminate]).
Qed.

Lemma first_invalid_None es :
  first_invalid es = None <-> Forall (fun kv => well_formed kv.2 = true) es.
Proof.
  induction es as [|[key v] es IH]; cbn [first_invalid].
  - split; [constructor | reflexivity].
  - destruct (well_formed v) eqn:Hv.
    + rewrite IH. split; [intros H; constructor; auto | intros H; now inversion H].
    + split; [discriminate |]. intros H. inversion H as [|? ? Hwf]. cbn in Hwf. congruence.
Qed.

(** X24. [validateCategoryData] accepts exactly the objects and arrays
    whose every entry is an object with a truthy [name] and a truthy
    [icon].  It looks no deeper: an accepted entry stays accepted whatever
    is put under its [subcategories]. *)
Theorem validation_is_shallow :
  (forall data,
      validateCategoryData data = Ok tt
      <-> is_object data = true
          /\ Forall (fun kv => well_formed kv.2 = true) (entries data))
  /\ (forall props anything,
      well_formed (JObj props) = true ->
      well_formed (JObj (set "subcategories" anything props)) = true).
Proof.
  split.
  - intros data. unfold validateCategoryData. rewrite <- first_invalid_None.
    destruct (is_object data) eqn:Hobj.
    + rewrite (object_truthy data Hobj). cbn [negb orb].
      destruct (first_invalid (entries data)); split; try tauto; try discriminate.
      intros [_ H]; discriminate.
    + rewrite orb_true_r. split; [discriminate | intros [H _]; discriminate].
  - intros props anything. cbn [well_formed]. rewrite !get_set. cbn. tauto.
Qed.

Lemma map_fst_flattenNode_assign path props subcategories updates :
  set_subcategories updates = None ->
  map fst (flattenNode path (assign_category (Category props subcategories) updates))
  = map fst (flattenNode path (Category props subcategories)).
Proof. intros H. cbn [assign_category flattenNode]. rewrite H. reflexivity. Qed.

(** X25. An update that carries no [subcategories] never adds, removes or
    moves a category: the paths of the tree, in depth-first order, are
    after the update what they were before. *)
Theorem update_keeps_the_shape_of_the_tree :
  forall categoryId updates cats cats',
    set_subcategories updates = None ->
    updateCategory categoryId updates cats = Some cats' ->
    map fst (flatten [] cats') = map fst (flatten [] cats).
Proof.
  intros categoryId updates cats cats' Hsub Hup.
  pose proof (updateCategory_listing categoryId updates cats) as H.
  rewrite Hup in H. cbn [option_map merged_first] in H.
  destruct H as (before & path & props & subs & after & -> & _ & _ & ->).
  rewrite !map_app. now rewrite map_fst_flattenNode_assign.
Qed.

End CategoriesMore.

(** ** The rewrites of the transpiled code *)

Section Rewrites.
Import JsString Compile.

Lemma starts_with_includes w s : starts_with w s = true -> Categories.includes w s = true.
Proof. intros H. destruct s; cbn [Categories.includes]; rewrite H; reflexivity. Qed.

Lemma includes_slice w n s :
  Categories.includes w (slice_from n s) = true -> Categories.includes w s = true.
Proof.
  revert s. induction n as [|n IH]; intros s; [auto |].
  destruct s as [|c s]; [auto |]. cbn [slice_from]. intros H.
  cbn [Categories.includes]. rewrite (IH s H). apply orb_true_r.
Qed.

Lemma starts_with_middle a b s :
  starts_with (a +:+ b) s = true -> starts_with b (slice_from (String.length a) s) = true.
Proof.
  revert s. induction a as [|x a IH]; intros s; [auto |].
  rewrite append_String. destruct s as [|c s]; [discriminate |].
  cbn [starts_with String.length slice_from]. destruct (Ascii.eqb x c); [apply IH | discriminate].
Qed.

Lemma starts_with_shorter a b s :
  starts_with (a +:+ b) s = true -> starts_with a s = true.
Proof.
  revert s. induction a as [|x a IH]; intros s; [reflexivity |].
  rewrite append_String. destruct s as [|c s]; [discriminate |].
  cbn [starts_with]. destruct (Ascii.eqb x c); [apply IH | discriminate].
Qed.

Lemma import_mentions_widgets s :
  starts_with IMPORT_WIDGETS s = true -> Categories.includes "widgets" s = true.
Proof.
  change IMPORT_WIDGETS with ("import " +:+ ("widgets" +:+ " from ")). intros H.
  apply starts_with_middle, starts_with_shorter, starts_with_includes in H.
  apply (includes_slice _ _ _ H).
Qed.

Lemma strip_absent s :
  Categories.includes "widgets" s = false -> strip_widget_imports O s = s.
Proof.
  induction s as [|c s IH]; intros Hno; [reflexivity |].
  cbn [strip_widget_imports].
  destruct (starts_with IMPORT_WIDGETS (String c s)) eqn:Himp.
  - apply import_mentions_widgets in Himp. congruence.
  - rewrite IH by (eapply includes_false_tail, Hno). reflexivity.
Qed.

Lemma replace_all_absent pat rep s :
  Categories.includes pat s = false -> replace_all pat rep O s = s.
Proof.
  induction s as [|c s IH]; intros Hno; [reflexivity |].
  cbn [replace_all]. rewrite (includes_false_head _ _ Hno).
  rewrite IH by (eapply includes_false_tail, Hno). reflexivity.
Qed.

Lemma add_js_absent s :
  Categories.includes "from" s = false -> forall prev, add_js_extension prev O s = s.
Proof.
  induction s as [|c s IH]; intros Hno prev; [reflexivity |].
  cbn [add_js_extension]. unfold import_match.
  rewrite (includes_false_head _ _ Hno), andb_false_r.
  rewrite IH by (eapply includes_false_tail, Hno). reflexivity.
Qed.

(** X26. Transpiled code in which neither [widgets] nor [from] occurs is
    written as the compiler produced it: the three rewrites change
    nothing. *)
Theorem rewrites_leave_other_code :
  forall code,
    Categories.includes "widgets" code = false ->
    Categories.includes "from" code = false ->
    modifyTranspiledCode code = code.
Proof.
  intros code Hw Hf. unfold modifyTranspiledCode.
  rewrite (strip_absent code Hw), (replace_all_absent _ _ code Hw).
  apply add_js_absent, Hf.
Qed.

End Rewrites.

(** ** The logout endpoint *)

Section LogoutMore.
Import Logout.

Variable SESSION_COOKIE_NAME : string.

(** X27. With the authentication system initialised, a logout request
    that carries no session cookie, or an empty one, is answered 200 and
    success, not a client fault: nothing is destroyed, and the cookie and
    the user of the request are cleared all the same. *)
Theorem logout_without_session_succeeds :
  forall destroySession ev,
    (cookies ev !! SESSION_COOKIE_NAME = None
     \/ cookies ev !! SESSION_COOKIE_NAME = Some "") ->
    POST SESSION_COOKIE_NAME true destroySession ev
    = ({| cookies := delete SESSION_COOKIE_NAME (cookies ev); user := None |},
       [], Json 200 true "Logged out successfully").
Proof.
  intros destroySession ev [H | H]; unfold POST; rewrite H; reflexivity.
Qed.

(** X28. A logout is all or nothing: the answer is 200 or 500; on 200 the
    session cookie is gone, [locals.user] is null and every other cookie is
    as it was; on 500 the cookies and the user are untouched, so that a
    session whose destruction failed keeps its cookie.  The only session
    the handler ever asks to destroy is the one the cookie names. *)
Theorem logout_is_all_or_nothing :
  forall auth destroySession ev,
    let r := POST SESSION_COOKIE_NAME auth destroySession ev in
    (status_of r.2 = 200 \/ status_of r.2 = 500)
    /\ (status_of r.2 = 200 ->
        cookies r.1.1 !! SESSION_COOKIE_NAME = None
        /\ user r.1.1 = None
        /\ forall k, k <> SESSION_COOKIE_NAME -> cookies r.1.1 !! k = cookies ev !! k)
    /\ (status_of r.2 = 500 -> r.1.1 = ev)
    /\ (forall session_id,
           In session_id r.1.2 -> cookies ev !! SESSION_COOKIE_NAME = Some session_id).
Proof.
  intros auth destroySession ev r. subst r. unfold POST.
  assert (Hclear :
    cookies (cleared SESSION_COOKIE_NAME ev) !! SESSION_COOKIE_NAME = None
    /\ user (cleared SESSION_COOKIE_NAME ev) = None
    /\ forall k, k <> SESSION_COOKIE_NAME ->
         cookies (cleared SESSION_COOKIE_NAME ev) !! k = cookies ev !! k).
  { cbn [cleared cookies user]. split; [apply lookup_delete_eq |]. split; [reflexivity |].
    intros k Hk. now apply lookup_delete_ne. }
  destruct auth; cbn [negb].
  - destruct (cookies ev !! SESSION_COOKIE_NAME) as [[|c rest]|] eqn:Hcookie.
    + cbn. repeat split; auto; try apply Hclear; try discriminate. intros ? [].
    + destruct (destroySession (String c rest)); cbn [fst snd status_of].
      * split; [now left |]. split; [intros _; exact Hclear |].
        split; [discriminate |]. intros sid [<- | []]. reflexivity.
      * split; [now right |]. split; [discriminate |].
        split; [reflexivity |]. intros sid [<- | []]. reflexivity.
    + cbn. repeat split; auto; try apply Hclear; try discriminate. intros ? [].
  - cbn. repeat split; auto; try discriminate. intros ? [].
Qed.

End LogoutMore.

(** ** Instances of the further properties on the sample inputs *)


Lemma artifact_paths_never_collide_witness :
  Compile.jsPath "/out" "a.ts" <> Compile.tsPath "/src" "blog/post.ts"
  /\ (Compile.jsPath "/out" "a.ts" = Compile.jsPath "/out" "blog/post.ts"
      -> "a.ts" = "blog/post.ts")
  /\ JsString.ends_with ".js" (Compile.jsPath "/out" "a.ts") = true.
Proof.
  apply (artifact_paths_never_collide "/src" "/out" "a.ts" "blog/post.ts");
    vm_compute; reflexivity.
Defined.

Lemma compileFile_touches_only_its_artifact_witness :
  (forall p, p <> Compile.jsPath "/out" "a.ts" ->
     Compile.files Samples.recompiled !! p = Compile.files Samples.edited_world !! p)
  /\ (forall q, q <> Compile.tsPath "/src" "a.ts" ->
        Compile.cache Samples.recompiled !! q = Compile.cache Samples.edited_world !! q)
  /\ (forall q, Compile.cache Samples.edited_world !! q <> None ->
        Compile.cache Samples.recompiled !! q <> None).
Proof.
  apply (compileFile_touches_only_its_artifact Samples.transpiler "a.ts" "/src" "/out" 40
           Samples.edited_world Samples.recompiled).
  vm_compute. reflexivity.
Defined.

Lemma compileFile_without_source_witness :
  (Compile.files Samples.orphan !! Compile.jsPath "/out" "gone.ts" <> None ->
   Compile.compileFile Samples.transpiler "gone.ts" "/src" "/out" 40 Samples.orphan
   = Ok Samples.orphan)
  /\ (Compile.files Samples.orphan !! Compile.jsPath "/out" "gone.ts" = None ->
      Compile.compileFile Samples.transpiler "gone.ts" "/src" "/out" 40 Samples.orphan
      = Err (("Failed to compile " +:+ "gone.ts" +:+ ": ")
             +:+ ("ENOENT: no such file or directory, open '"
                  +:+ Compile.path_join "/src" "gone.ts" +:+ "'"))).
Proof.
  apply (compileFile_without_source Samples.transpiler "gone.ts" "/src" "/out" 40
           Samples.orphan).
  vm_compute. reflexivity.
Defined.


Lemma pass_over_fresh_artifacts_writes_nothing_witness :
  (Compile.compile Samples.transpiler (fun _ => 99) (Some "/out") (Some "/src")
     (Ok [Compile.RegularFile "a.ts"]) Samples.world).1
  = (Samples.world, "/out" :: Compile.outputDirectories ["a.ts"] "/out")
  /\ (Compile.compile Samples.transpiler (fun _ => 99) (Some "/out") (Some "/src")
        (Ok [Compile.RegularFile "a.ts"]) Samples.world).2 = Ok tt.
Proof.
  apply (pass_over_fresh_artifacts_writes_nothing Samples.transpiler (fun _ => 99)
           "/out" "/src" (Ok [Compile.RegularFile "a.ts"]) ["a.ts"] Samples.world).
  - discriminate.
  - discriminate.
  - vm_compute. reflexivity.
  - intros f [<- | []]. exists Samples.source, Samples.artifact.
    split; [vm_compute; reflexivity |]. split; [vm_compute; reflexivity |].
    split; [vm_compute; reflexivity | vm_compute; discriminate].
Defined.

Lemma compile_fails_before_any_file_witness :
  exists dirs m,
    Compile.compile Samples.transpiler (fun _ => 40) None (Some "/src") (Ok Samples.tree)
      Samples.project
    = (Samples.project, dirs, Err ("Collection compilation failed: " +:+ m)).
Proof.
  apply (compile_fails_before_any_file Samples.transpiler (fun _ => 40) None (Some "/src")
           (Ok Samples.tree) Samples.project).
  left. reflexivity.
Defined.

Lemma failed_pass_starts_the_cooldown_witness :
  CollectionCompile.POST 100000 100000
    {| CollectionCompile.compile_outcome := Err "disk full";
       CollectionCompile.update_outcome := Ok tt |}
    (CollectionCompile.open 0)
  = (CollectionCompile.open 100000, [CollectionCompile.CallCompile],
     CollectionCompile.Fault 500 ("Compilation process failed: " +:+ "disk full"))
  /\ CollectionCompile.GET false 130000 130000 CollectionCompile.resolves
       (CollectionCompile.POST 100000 100000
          {| CollectionCompile.compile_outcome := Err "disk full";
             CollectionCompile.update_outcome := Ok tt |}
          (CollectionCompile.open 0)).1.1
     = (CollectionCompile.open 100000, [], CollectionCompile.skipped).
Proof.
  apply (failed_pass_starts_the_cooldown 0 100000 100000 "disk full" (Ok tt)
           130000 130000 CollectionCompile.resolves).
  reflexivity.
Defined.

Lemma cache_key_confuses_action_and_name_witness :
  Collections.cacheKey (Some ("collection" +:+ ":" +:+ "Posts")) None
  = Collections.cacheKey (Some "collection") (Some "Posts").
Proof.
  apply (cache_key_confuses_action_and_name "collection" "Posts"); discriminate.
Defined.

Lemma cached_payload_is_served_for_the_ttl_witness :
  (Collections.GET false (Some "collection:Posts") None 1000 Samples.registry Samples.folder
     Samples.healthy Samples.redis_on).2
  = Collections.Json Samples.listing
  /\ (Collections.GET false (Some "collection") (Some "Posts") 1200 Samples.registry
        Samples.folder Samples.healthy
        (Collections.GET false (Some "collection:Posts") None 1000 Samples.registry
           Samples.folder Samples.healthy Samples.redis_on).1).2
     = Collections.Json Samples.listing.
Proof.
  apply (cached_payload_is_served_for_the_ttl (Some "collection:Posts") None 1000
           Samples.registry Samples.folder Samples.healthy Samples.redis_on Samples.listing
           (Some "collection") (Some "Posts") 1200 Samples.registry Samples.folder
           Samples.healthy);
    vm_compute; reflexivity.
Defined.

Lemma file_action_stays_in_the_folder_witness :
  (forall c,
      In c (list_ascii_of_string (Collections.basename (Collections.given (Some "../b.js")))) ->
      c <> "/"%char)
  /\ Collections.basename (Collections.given (Some "../b.js")) <> ".."
  /\ exists content,
      Collections.entry (Collections.basename (Collections.given (Some "../b.js")))
        Samples.folder = Some (Some content)
      /\ Collections.safeParseCollectionFile content
         = Ok (Js.JObj [("default", Js.JObj [])]).
Proof.
  apply (file_action_stays_in_the_folder (Some "../b.js") Samples.registry Samples.folder).
  vm_compute. reflexivity.
Defined.

Lemma post_without_recompile_is_a_500_witness :
  exists m,
    Collections.POST false (Ok (Js.JObj [("action", Js.JStr "reload")])) true (Ok tt)
      Samples.redis_on
    = (Samples.redis_on, [], Collections.Fault 500 m).
Proof.
  apply (post_without_recompile_is_a_500 false
           (Ok (Js.JObj [("action", Js.JStr "reload")])) true (Ok tt) Samples.redis_on).
  intros props H. injection H as <-. vm_compute. discriminate.
Defined.

Lemma sanitize_leaves_other_text_witness :
  Collections.sanitize "{}" = "{}"
  /\ Collections.safeParseCollectionFile "{}"
     = match Js.JSON_parse "{}" with
       | Some parsed =>
           if Js.is_object parsed then Ok (Js.JObj [("default", parsed)])
           else Err Collections.invalid_format
       | None => Err Collections.invalid_format
       end.
Proof.
  apply (sanitize_leaves_other_text "{}"); vm_compute; reflexivity.
Defined.

Lemma put_of_unknown_id_is_a_500_witness :
  Categories.PUT (fun _ => "{}") (Some (Js.JNum 9 0)) Samples.rename Categories.example
    Samples.io_ok None Samples.redis_off
  = (Categories.example, [],
     Categories.Fault 500
       ("Failed to update category: {" +:+ Collections.quoted "message" +:+ ":"
        +:+ Collections.quoted "Category not found" +:+ "}")).
Proof.
  apply (put_of_unknown_id_is_a_500 (fun _ => "{}") (Some (Js.JNum 9 0)) Samples.rename
           Categories.example Samples.io_ok None Samples.redis_off).
  intros path props H. cbn in H.
  destruct H as [H | [H | [H | []]]]; injection H as <- <-; reflexivity.
Defined.

Lemma put_never_rolls_back_witness :
  (Categories.PUT (fun _ => "{}") (Some (Js.JNum 3 0)) Samples.rename Categories.example
     Samples.backup_fails None Samples.redis_off).1.1 = Samples.renamed
  /\ forall m, Categories.backup Samples.backup_fails = Err m ->
       Categories.PUT (fun _ => "{}") (Some (Js.JNum 3 0)) Samples.rename Categories.example
         Samples.backup_fails None Samples.redis_off
       = (Samples.renamed, [Categories.BackupCategoryFiles],
          Categories.Fault 500 ("Failed to update category: " +:+ m)).
Proof.
  apply (put_never_rolls_back (fun _ => "{}") (Some (Js.JNum 3 0)) Samples.rename
           Categories.example Samples.renamed Samples.backup_fails None Samples.redis_off).
  reflexivity.
Defined.

Lemma validation_is_shallow_witness :
  Categories.well_formed
    (Js.JObj (Js.set "subcategories" (Js.JNum 7 0)
                [("name", Js.JStr "Blog"); ("icon", Js.JStr "bi:folder")])) = true.
Proof.
  apply (proj2 validation_is_shallow
           [("name", Js.JStr "Blog"); ("icon", Js.JStr "bi:folder")] (Js.JNum 7 0)).
  reflexivity.
Defined.

Lemma update_keeps_the_shape_of_the_tree_witness :
  map fst (Categories.flatten [] Samples.renamed)
  = map fst (Categories.flatten [] Categories.example).
Proof.
  apply (update_keeps_the_shape_of_the_tree (Some (Js.JNum 3 0)) Samples.rename
           Categories.example Samples.renamed); reflexivity.
Defined.

Lemma rewrites_leave_other_code_witness :
  Compile.modifyTranspiledCode "export default {};" = "export default {};".
Proof.
  apply (rewrites_leave_other_code "export default {};"); vm_compute; reflexivity.
Defined.

Lemma logout_without_session_succeeds_witness :
  Logout.POST "auth_session" true (fun _ => Err "unreachable") Samples.signed_out
  = ({| Logout.cookies := delete "auth_session" (Logout.cookies Samples.signed_out);
        Logout.user := None |},
     [], Logout.Json 200 true "Logged out successfully").
Proof.
  apply (logout_without_session_succeeds "auth_session" (fun _ => Err "unreachable")
           Samples.signed_out).
  left. vm_compute. reflexivity.
Defined.

Lemma logout_is_all_or_nothing_witness :
  (Logout.POST "auth_session" true (fun _ => Err "unreachable") Samples.signed_in).1.1
  = Samples.signed_in.
Proof.
  apply (proj1 (proj2 (proj2
           (logout_is_all_or_nothing "auth_session" true (fun _ => Err "unreachable")
              Samples.signed_in)))).
  reflexivity.
Defined.
